(** * Session and live-state layer of the UAVCAN GUI tool

  A shallow embedding of the console context of
  [uavcan_gui_tool/main.py] ([request], [broadcast], [subscribe],
  [MainWindow._spin_node]) and of [JigMonitor] in
  [uavcan_gui_tool/panels/jig_panel.py].

  Conventions.
  - Clock readings ([time.monotonic()], [ts_monotonic]) and durations are
    integers counting milliseconds; only their order and sums are used.
  - The UAVCAN node (pyuavcan) is outside the repository.  It appears here
    as explicit state: the list of transfers it was asked to send, and one
    flag per registration (message handler, periodic event, deferred
    event).  What a handle does when [remove()] is called on a registration
    that is already gone is a parameter, [RemovePolicy].
  - Outcomes decided by the environment (whether a send or a user callback
    raises, what the clock reads) are arguments of the functions.  A
    callback runs at one clock reading: a transfer it sends carries that
    reading as its time, and the comparisons it makes use the same one. *)

From stdpp Require Import gmap strings list sorting.

Local Open Scope Z_scope.

(** ** The transport as the code uses it *)

Module Transport.

(** Python exceptions that occur in the modelled code.  [RuntimeError] is
    raised by the console functions themselves; [ValueError] is what
    removing an absent registration raises; [AttributeError] is
    [None.remove()]; [TransportError] stands for any [Exception] raised
    inside the node; [BaseException] for one that is not an [Exception]. *)
Inductive exception :=
| RuntimeError (msg : string)
| ValueError
| AttributeError
| TransportError
| BaseException.

Inductive Result (A : Type) :=
| Ok (a : A)
| Raise (e : exception).
Arguments Ok {A} a.
Arguments Raise {A} e.

(** [except Exception] catches everything but bare [BaseException]s. *)
Definition is_Exception (e : exception) : bool :=
  match e with
  | BaseException => false
  | _ => true
  end.

(** Behaviour of [handle.remove()] on a registration that is no longer
    there. *)
Inductive RemovePolicy :=
| RaiseWhenAbsent
| SilentWhenAbsent.

(** [handle.remove()] on a registration whose presence is [present]:
    the outcome of the call and the presence afterwards. *)
Definition remove (pol : RemovePolicy) (present : bool) : Result unit * bool :=
  if present then (Ok tt, false)
  else match pol with
       | RaiseWhenAbsent => (Raise ValueError, false)
       | SilentWhenAbsent => (Ok tt, false)
       end.

(** A message or request payload: either a DSDL type object
    ([uavcan.dsdl.CompoundType]) or a value of such a type. *)
Inductive Payload :=
| CompoundType (full_name : string)
| CompoundValue (full_name : string) (fields : list Z).

(** [uavcan.TYPENAMES[name]()]: a default-constructed value. *)
Definition TYPENAMES_new (full_name : string) : Payload :=
  CompoundValue full_name [].

(** [uavcan.TYPENAMES[name].Request()]. *)
Definition TYPENAMES_Request (full_name : string) : Payload :=
  CompoundValue (full_name +:+ ".Request") [].

(** One message handed to [node.broadcast]. *)
Record Transfer := {
  tr_time : Z;
  tr_payload : Payload;
  tr_priority : Z
}.

(** The local node: its mode and the broadcasts it has accepted, oldest
    first. *)
Record Node := {
  is_anonymous : bool;
  broadcasts : list Transfer
}.

(** [node.broadcast(payload, priority)] at clock reading [now]; [ok] tells
    whether the transport accepts the message. *)
Definition node_broadcast (node : Node) (now : Z) (ok : bool)
    (payload : Payload) (priority : Z) : Result Node :=
  if ok then
    Ok {| is_anonymous := is_anonymous node;
          broadcasts := broadcasts node ++
            [{| tr_time := now; tr_payload := payload; tr_priority := priority |}] |}
  else Raise TransportError.

(** A node with an identifier that has sent nothing yet, and a message. *)
Definition fresh_node : Node := {| is_anonymous := false; broadcasts := [] |}.

Definition key_value : Payload := CompoundValue "uavcan.protocol.debug.KeyValue" [123].

End Transport.

(** ** The console context: [request], [broadcast], [subscribe] *)

Module Console.
Import Transport.

Definition default_transfer_priority : Z := 30.

(** Python's [priority or default] on an optional integer: [None] and [0]
    are falsy. *)
Definition or_default (priority : option Z) (default : Z) : Z :=
  match priority with
  | Some p => if decide (p = 0) then default else p
  | None => default
  end.

Inductive Callback :=
| print_yaml
| UserCallback (tag : nat).

(** [callback or print_yaml]. *)
Definition callback_or_print_yaml (callback : option Callback) : Callback :=
  match callback with
  | Some c => c
  | None => print_yaml
  end.

Definition anonymous_msg : string :=
  "Local node is configured in anonymous mode. You need to set the local node ID (see the main window) in order to be able to send transfers.".

Definition throw_if_anonymous (node : Node) : Result unit :=
  if is_anonymous node then Raise (RuntimeError anonymous_msg) else Ok tt.

(** The arguments [request] passes to [node.request]. *)
Record RequestCall := {
  rq_payload : Payload;
  rq_server_node_id : Z;
  rq_callback : Callback;
  rq_priority : Z;
  rq_timeout : option Z
}.

Definition request (node : Node) (payload : Payload) (server_node_id : Z)
    (callback : option Callback) (priority : option Z) (timeout : option Z)
    : Result RequestCall :=
  let payload :=
    match payload with
    | CompoundType full_name => TYPENAMES_Request full_name
    | _ => payload
    end in
  match throw_if_anonymous node with
  | Raise e => Raise e
  | Ok _ =>
    let priority := or_default priority default_transfer_priority in
    let callback := callback_or_print_yaml callback in
    Ok {| rq_payload := payload; rq_server_node_id := server_node_id;
          rq_callback := callback; rq_priority := priority;
          rq_timeout := timeout |}
  end.

(** *** Background broadcasting *)

Definition interval_not_set_msg : string :=
  "Cannot setup background broadcaster: interval is not set".

(** The spec's name for the error of an inconsistent combination of
    termination conditions. *)
Definition ConfigurationError : exception := RuntimeError interval_not_set_msg.

(** [3600 * 24 * 365 * 1000] seconds, in milliseconds. *)
Definition thousand_years : Z := 3600 * 24 * 365 * 1000 * 1000.

(** The closure state of a periodic broadcaster: the captured arguments,
    [deadline], [num_broadcasted], and whether the periodic event behind
    [timer_handle] is still registered. *)
Record BroadcastJob := {
  job_payload : Payload;
  job_priority : option Z;
  job_count : option Z;
  deadline : Z;
  num_broadcasted : Z;
  timer_handle : bool
}.

(** [timer_handle.remove()] and the counter update, as record updates. *)
Definition with_timer (b : bool) (job : BroadcastJob) : BroadcastJob :=
  {| job_payload := job_payload job; job_priority := job_priority job;
     job_count := job_count job; deadline := deadline job;
     num_broadcasted := num_broadcasted job; timer_handle := b |}.

Definition with_num_broadcasted (n : Z) (job : BroadcastJob) : BroadcastJob :=
  {| job_payload := job_payload job; job_priority := job_priority job;
     job_count := job_count job; deadline := deadline job;
     num_broadcasted := n; timer_handle := timer_handle job |}.

Definition do_broadcast (node : Node) (now : Z) (ok : bool)
    (payload : Payload) (priority : option Z) : Result Node :=
  node_broadcast node now ok payload (or_default priority default_transfer_priority).

Definition is_Some_b {A} (o : option A) : bool :=
  match o with Some _ => true | None => false end.

(** [broadcast(payload, priority, interval, count, duration)] called at
    clock reading [now]; [send_ok] is the outcome of the immediate send.
    Returns the outcome of the call and the node afterwards. *)
Definition broadcast (node : Node) (now : Z) (send_ok : bool)
    (payload : Payload) (priority interval count duration : option Z)
    : Result (option BroadcastJob) * Node :=
  let payload :=
    match payload with
    | CompoundType full_name => TYPENAMES_new full_name
    | _ => payload
    end in
  if negb (is_Some_b interval) && (is_Some_b duration || is_Some_b count) then
    (Raise ConfigurationError, node)
  else
    match throw_if_anonymous node with
    | Raise e => (Raise e, node)
    | Ok _ =>
      match do_broadcast node now send_ok payload priority with
      | Raise e => (Raise e, node)
      | Ok node' =>
        match interval with
        | None => (Ok None, node')
        | Some _ =>
          let duration := default thousand_years duration in
          (Ok (Some {| job_payload := payload; job_priority := priority;
                       job_count := count; deadline := now + duration;
                       num_broadcasted := 1; timer_handle := true |}),
           node')
        end
      end
    end.

(** [count is not None and num_broadcasted >= count]. *)
Definition count_reached (count : option Z) (num : Z) : bool :=
  match count with
  | Some c => bool_decide (c ≤ num)
  | None => false
  end.

(** [process_next], the periodic callback, run at clock reading [now];
    [send_ok] is the outcome of its send. *)
Definition process_next (job : BroadcastJob) (node : Node) (now : Z)
    (send_ok : bool) : BroadcastJob * Node :=
  match do_broadcast node now send_ok (job_payload job) (job_priority job) with
  | Raise _ => (with_timer false job, node)
  | Ok node' =>
    let job := with_num_broadcasted (num_broadcasted job + 1) job in
    if count_reached (job_count job) (num_broadcasted job)
       || bool_decide (deadline job ≤ now)
    then (with_timer false job, node')
    else (job, node')
  end.

(** What can happen to a running broadcaster: the node's scheduler fires
    the periodic event, or the holder of the handle calls [remove()]. *)
Inductive JobEvent :=
| Tick (now : Z) (send_ok : bool)
| Cancel.

(** The scheduler runs [process_next] only while the periodic event is
    registered. *)
Definition job_step (pol : RemovePolicy) (s : BroadcastJob * Node) (ev : JobEvent)
    : BroadcastJob * Node :=
  let '(job, node) := s in
  match ev with
  | Tick now send_ok =>
    if timer_handle job then process_next job node now send_ok else s
  | Cancel => (with_timer (snd (remove pol (timer_handle job))) job, node)
  end.

Definition job_run (pol : RemovePolicy) (s : BroadcastJob * Node)
    (evs : list JobEvent) : BroadcastJob * Node :=
  foldl (job_step pol) s evs.

End Console.

(** ** Subscriptions *)

Module Subscribe.
Import Transport.
Import Console.

Definition no_termination_msg : string :=
  "on_end is set, but it will never be called because the subscription has no termination condition".

(** The deferred event behind [timer_handle]: [timer_handle] is [None]
    when no duration was given; otherwise the event is either still
    scheduled (to fire at [due]) or gone (fired or cancelled). *)
Inductive Deferred :=
| NoTimer
| Pending (due : Z)
| Gone.

Definition is_pending (t : Deferred) : bool :=
  match t with Pending _ => true | _ => false end.

(** The closure state shared by [process_callback] and [cancel_callback].
    [sub_handle] tells whether the message handler is registered.  The
    last three fields are observation counters: how often the user
    callback was entered, how often it returned normally, and how often
    [on_end] was invoked. *)
Record Subscription := {
  callback : Callback;
  count : option Z;
  on_end : bool;
  sub_handle : bool;
  timer_handle : Deferred;
  callback_calls : nat;
  callback_returns : nat;
  on_end_calls : nat
}.

(** The job states of the spec, read off the handler registration. *)
Inductive Status := ACTIVE | TERMINATED.

Definition status (s : Subscription) : Status :=
  if sub_handle s then ACTIVE else TERMINATED.

(** [subscribe(uavcan_type, callback, count, duration, on_end)] at clock
    reading [now]. *)
Definition subscribe (now : Z) (callback : option Callback)
    (count duration : option Z) (on_end : bool) : Result Subscription :=
  if negb (is_Some_b count) && negb (is_Some_b duration) && on_end then
    Raise (RuntimeError no_termination_msg)
  else
    Ok {| callback := callback_or_print_yaml callback;
          count := count;
          on_end := on_end;
          sub_handle := true;
          timer_handle :=
            match duration with
            | Some d => Pending (now + d)
            | None => NoTimer
            end;
          callback_calls := 0; callback_returns := 0; on_end_calls := 0 |}.

(** [try: timer_handle.remove() except Exception: pass].  On [None] the
    attribute lookup raises, on a vanished event the removal may raise;
    both are swallowed. *)
Definition try_remove_timer (t : Deferred) : Deferred :=
  match t with
  | NoTimer => NoTimer
  | Pending _ => Gone
  | Gone => Gone
  end.

(** [if on_end is not None: on_end()]. *)
Definition call_on_end (s : Subscription) : Subscription :=
  {| callback := callback s; count := count s; on_end := on_end s;
     sub_handle := sub_handle s; timer_handle := timer_handle s;
     callback_calls := callback_calls s;
     callback_returns := callback_returns s;
     on_end_calls := if on_end s then S (on_end_calls s) else on_end_calls s |}.

Definition set_sub_handle (p : bool) (s : Subscription) : Subscription :=
  {| callback := callback s; count := count s; on_end := on_end s;
     sub_handle := p; timer_handle := timer_handle s;
     callback_calls := callback_calls s;
     callback_returns := callback_returns s;
     on_end_calls := on_end_calls s |}.

Definition set_timer_handle (t : Deferred) (s : Subscription) : Subscription :=
  {| callback := callback s; count := count s; on_end := on_end s;
     sub_handle := sub_handle s; timer_handle := t;
     callback_calls := callback_calls s;
     callback_returns := callback_returns s;
     on_end_calls := on_end_calls s |}.

(** The [try: callback(e) ... else: ...] part of [process_callback]:
    the new closure state and [stop_now].  [callback_ok = false] means the
    user callback raised an [Exception]. *)
Definition invoke_callback (s : Subscription) (callback_ok : bool)
    : Subscription * bool :=
  if callback_ok then
    match count s with
    | Some c =>
      let c' := c - 1 in
      ({| callback := callback s; count := Some c'; on_end := on_end s;
          sub_handle := sub_handle s; timer_handle := timer_handle s;
          callback_calls := S (callback_calls s);
          callback_returns := S (callback_returns s);
          on_end_calls := on_end_calls s |},
       bool_decide (c' ≤ 0))
    | None =>
      ({| callback := callback s; count := None; on_end := on_end s;
          sub_handle := sub_handle s; timer_handle := timer_handle s;
          callback_calls := S (callback_calls s);
          callback_returns := S (callback_returns s);
          on_end_calls := on_end_calls s |},
       false)
    end
  else
    ({| callback := callback s; count := count s; on_end := on_end s;
        sub_handle := sub_handle s; timer_handle := timer_handle s;
        callback_calls := S (callback_calls s);
        callback_returns := callback_returns s;
        on_end_calls := on_end_calls s |},
     true).

(** [process_callback(e)].  The removal of [sub_handle] is not guarded:
    if it raises, the rest of the [if stop_now] block is skipped and the
    exception leaves the handler. *)
Definition process_callback (pol : RemovePolicy) (s : Subscription)
    (callback_ok : bool) : Result unit * Subscription :=
  let '(s1, stop_now) := invoke_callback s callback_ok in
  if stop_now then
    match remove pol (sub_handle s1) with
    | (Raise e, p) => (Raise e, set_sub_handle p s1)
    | (Ok _, p) =>
      (Ok tt,
       call_on_end
         (set_timer_handle (try_remove_timer (timer_handle s1))
            (set_sub_handle p s1)))
    end
  else (Ok tt, s1).

(** [cancel_callback()], the deferred event's callback. *)
Definition cancel_callback (pol : RemovePolicy) (s : Subscription) : Subscription :=
  match remove pol (sub_handle s) with
  | (Raise _, p) => set_sub_handle p s
  | (Ok _, p) => call_on_end (set_sub_handle p s)
  end.

(** [remove()] on the value [subscribe] returns, which is [sub_handle]
    itself: the outcome seen by the caller and the state afterwards. *)
Definition handle_remove (pol : RemovePolicy) (s : Subscription)
    : Result unit * Subscription :=
  let '(r, p) := remove pol (sub_handle s) in (r, set_sub_handle p s).

(** What can happen to a subscription: the node delivers a message, the
    deferred event fires, or the holder of the handle calls [remove()]. *)
Inductive SubEvent :=
| Deliver (callback_ok : bool)
| Expire
| Remove.

(** The node dispatches a message only to a registered handler and fires
    a deferred event only while it is scheduled, once. *)
Definition sub_step (pol : RemovePolicy) (s : Subscription) (ev : SubEvent)
    : Subscription :=
  match ev with
  | Deliver callback_ok =>
    if sub_handle s then snd (process_callback pol s callback_ok) else s
  | Expire =>
    if is_pending (timer_handle s)
    then cancel_callback pol (set_timer_handle Gone s)
    else s
  | Remove => snd (handle_remove pol s)
  end.

Definition sub_run (pol : RemovePolicy) (s : Subscription) (evs : list SubEvent)
    : Subscription :=
  foldl (sub_step pol) s evs.

End Subscribe.

(** ** The spin timer of the main window *)

Module Spin.
Import Transport.

(** What the modelled part of [MainWindow] does to the world: calls of
    [node.spin(0)] and records written by [logger.error]. *)
Record MainWindow := {
  spin_calls : nat;
  error_log : list exception
}.

Inductive SpinOutcome :=
| Returns
| Raises (ex : exception).

(** [MainWindow._spin_node], with the outcome of [self._node.spin(0)]. *)
Definition _spin_node (w : MainWindow) (o : SpinOutcome) : Result unit * MainWindow :=
  match o with
  | Returns =>
    (Ok tt, {| spin_calls := S (spin_calls w); error_log := error_log w |})
  | Raises ex =>
    if is_Exception ex then
      (Ok tt, {| spin_calls := S (spin_calls w); error_log := error_log w ++ [ex] |})
    else
      (Raise ex, {| spin_calls := S (spin_calls w); error_log := error_log w |})
  end.

(** [_node_spin_timer] is a repeating timer connected to [_spin_node].
    One element of [outcomes] per tick.  A tick whose handler lets an
    exception escape ends the loop: the remaining ticks are not run. *)
Fixpoint run_timer (w : MainWindow) (outcomes : list SpinOutcome)
    : Result unit * MainWindow :=
  match outcomes with
  | [] => (Ok tt, w)
  | o :: rest =>
    match _spin_node w o with
    | (Ok _, w') => run_timer w' rest
    | (Raise e, w') => (Raise e, w')
    end
  end.

Definition raised_Exception (o : SpinOutcome) : option exception :=
  match o with
  | Raises ex => if is_Exception ex then Some ex else None
  | Returns => None
  end.

(** The outcome is a normal return or an error, that is an [Exception]. *)
Definition returns_or_errors (o : SpinOutcome) : bool :=
  match o with
  | Returns => true
  | Raises ex => is_Exception ex
  end.

End Spin.

(** ** The jig monitor *)

Module Jig.

(** A received status transfer: [event.message.id], the rest of the
    message, and [event.transfer.ts_monotonic]. *)
Record TransferEvent := {
  message_id : Z;
  message_body : list Z;
  ts_monotonic : Z
}.

(** [JigMonitor.TIMEOUT], in seconds. *)
Definition TIMEOUT : Z := 2.

Definition seconds (s : Z) : Z := s * 1000.

(** [_modules] and the due time of the single-shot [_timer], if it is
    running. *)
Record JigMonitor := {
  _modules : gmap Z TransferEvent;
  _timer : option Z
}.

Definition new_monitor : JigMonitor := {| _modules := ∅; _timer := None |}.

(** The test of [check_for_stale]:
    [e.transfer.ts_monotonic + self.TIMEOUT < time.monotonic()]. *)
Definition stale (now : Z) (e : TransferEvent) : Prop :=
  ts_monotonic e + seconds TIMEOUT < now.

#[global] Instance stale_dec now e : Decision (stale now e).
Proof. unfold stale. apply _. Defined.

Definition sweep (now : Z) (m : gmap Z TransferEvent) : gmap Z TransferEvent :=
  filter (λ kv, ¬ stale now kv.2) m.

(** [check_for_stale()] at clock reading [now]. *)
Definition check_for_stale (now : Z) (j : JigMonitor) : JigMonitor :=
  {| _modules := sweep now (_modules j); _timer := _timer j |}.

(** [jig_status_callback(event)] at clock reading [now]. *)
Definition jig_status_callback (now : Z) (event : TransferEvent) (j : JigMonitor)
    : JigMonitor :=
  let nid := message_id event in
  check_for_stale now
    {| _modules := <[nid := event]> (_modules j); _timer := Some (now + 1500) |}.

(** The [timeout] signal of the single-shot timer, delivered at [now]. *)
Definition timer_timeout (now : Z) (j : JigMonitor) : JigMonitor :=
  check_for_stale now {| _modules := _modules j; _timer := None |}.

(** [find_all(predicate)]: the entries for which the predicate holds. *)
Definition find_all (predicate : TransferEvent → bool) (j : JigMonitor)
    : list TransferEvent :=
  filter (λ e, predicate e = true) (map_to_list (_modules j)).*2.

(** What drives the monitor: a status message handled at [now], or the
    timer's timeout delivered at [now]. *)
Inductive JigEvent :=
| Status (now : Z) (event : TransferEvent)
| TimerFired (now : Z).


(** The timeout is delivered only if the timer is running and due. *)
Definition jig_step (j : JigMonitor) (ev : JigEvent) : JigMonitor :=
  match ev with
  | Status now event => jig_status_callback now event j
  | TimerFired now =>
    match _timer j with
    | Some due => if bool_decide (due ≤ now) then timer_timeout now j else j
    | None => j
    end
  end.

Definition jig_run (j : JigMonitor) (evs : list JigEvent) : JigMonitor :=
  foldl jig_step j evs.



End Jig.

(** ** The jig table *)

Module JigTable.
Import Jig.

(** [event.message]: the status message without the transfer data. *)
Record Message := {
  msg_id : Z;
  msg_body : list Z
}.

Definition message (e : TransferEvent) : Message :=
  {| msg_id := message_id e; msg_body := message_body e |}.

(** A colour as [QColor.fromHslF] returns it for three calls of
    [random.random()]; only its identity matters here. *)
Definition Color := Z.

(** [JigNodeTable.Row_value(status, color)]. *)
Record Row_value := {
  id : Z;
  status : Message;
  color : Color
}.

Definition new_Row_value (status : TransferEvent) (color : Color) : Row_value :=
  {| id := message_id status; status := message status; color := color |}.

(** The table: its rows as last written by [set_row], the dictionaries
    [progress] and [row_color], and the number of colours drawn from the
    random generator so far.  [BasicTable] is outside these files: a row is
    represented by the value it was set to, whose cells are rendered by
    [COLUMNS]. *)
Record JigNodeTable := {
  rows : list Row_value;
  progress : gmap Z Z;
  row_color : gmap Z Color;
  drawn : nat
}.

(** [int(self.item(row, 0).text(), 0)]: column 0 is rendered by
    [lambda e: e.status.id]. *)
Definition slot_id (r : Row_value) : Z := msg_id (status r).

Definition with_rows (rs : list Row_value) (t : JigNodeTable) : JigNodeTable :=
  {| rows := rs; progress := progress t; row_color := row_color t; drawn := drawn t |}.

Definition with_progress (p : gmap Z Z) (t : JigNodeTable) : JigNodeTable :=
  {| rows := rows t; progress := p; row_color := row_color t; drawn := drawn t |}.

(** [id_to_color(id)]: [random k] is the colour the [k]-th draw gives. *)
Definition id_to_color (random : nat → Color) (nid : Z) (t : JigNodeTable)
    : Color * JigNodeTable :=
  match row_color t !! nid with
  | Some c => (c, t)
  | None =>
    let c := random (drawn t) in
    (c, {| rows := rows t; progress := progress t;
           row_color := <[nid := c]> (row_color t); drawn := S (drawn t) |})
  end.

(** [set_row(row, row_val)], [removeRow(row)], and [insertRow(row)]
    followed by [set_row(row, row_val)] on the new row. *)
Definition set_row (row : nat) (row_val : Row_value) (t : JigNodeTable) : JigNodeTable :=
  with_rows (<[row := row_val]> (rows t)) t.

Definition removeRow (row : nat) (t : JigNodeTable) : JigNodeTable :=
  with_rows (delete row (rows t)) t.

Definition insert_row (row : nat) (row_val : Row_value) (t : JigNodeTable) : JigNodeTable :=
  with_rows (take row (rows t) ++ row_val :: drop row (rows t)) t.

(** [set_progress(nid, progress)]: the assignment cannot raise [KeyError]. *)
Definition set_progress (nid value : Z) (t : JigNodeTable) : JigNodeTable :=
  with_progress (<[nid := value]> (progress t)) t.

(** [{e.message.id: e for e in self._monitor.find_all(lambda _: True)}]:
    a later entry replaces an earlier one with the same id. *)
Definition known_nodes (monitor : JigMonitor) : gmap Z TransferEvent :=
  foldl (λ acc e, <[message_id e := e]> acc) ∅ (find_all (λ _, true) monitor).

(** [nid in known_nodes] for the id a row shows. *)
Definition row_known (known : gmap Z TransferEvent) (r : Row_value) : bool :=
  match known !! slot_id r with
  | Some _ => true
  | None => false
  end.

(** The numbers, counted from [first], of the rows whose id is not known:
    the rows the first loop of [_update] marks for removal. *)
Fixpoint unknown_rows (known : gmap Z TransferEvent) (first : nat)
    (rs : list Row_value) : list nat :=
  match rs with
  | [] => []
  | r :: rs' =>
    if row_known known r then unknown_rows known (S first) rs'
    else first :: unknown_rows known (S first) rs'
  end.

(** A row shows the monitor's record for its id, in the colour registered
    for that id. *)
Definition shows (known : gmap Z TransferEvent) (rc : gmap Z Color) (r : Row_value) : Prop :=
  ∃ e, known !! slot_id r = Some e ∧ r = new_Row_value e (color r)
       ∧ rc !! slot_id r = Some (color r).

(** The variables of the first loop of [_update]. *)
Record Scan := {
  table : JigNodeTable;
  displayed_nodes : gset Z;
  rows_to_remove : list nat
}.

(** One iteration of [for row in range(self.rowCount())]. *)
Definition update_existing (random : nat → Color) (known : gmap Z TransferEvent)
    (sc : Scan) (row : nat) : Scan :=
  match rows (table sc) !! row with
  | None => sc
  | Some r =>
    let nid := slot_id r in
    let displayed := {[ nid ]} ∪ displayed_nodes sc in
    match known !! nid with
    | None =>
      {| table := with_progress (delete nid (progress (table sc))) (table sc);
         displayed_nodes := displayed;
         rows_to_remove := rows_to_remove sc ++ [row] |}
    | Some e =>
      let '(c, t) := id_to_color random (message_id e) (table sc) in
      {| table := set_row row (new_Row_value e c) t;
         displayed_nodes := displayed;
         rows_to_remove := rows_to_remove sc |}
    end
  end.

(** [find_insertion_pos_for_node_id(target_slot_id)] on the current rows. *)
Fixpoint find_insertion_pos_for_node_id (target_slot_id : Z) (rs : list Row_value) : nat :=
  match rs with
  | [] => 0
  | r :: rs' =>
    if bool_decide (target_slot_id < slot_id r) then 0%nat
    else S (find_insertion_pos_for_node_id target_slot_id rs')
  end.

(** One iteration of [for nid in set(known_nodes.keys()) - displayed_nodes]. *)
Definition add_new (random : nat → Color) (known : gmap Z TransferEvent)
    (t : JigNodeTable) (nid : Z) : JigNodeTable :=
  match known !! nid with
  | None => t
  | Some e =>
    let row := find_insertion_pos_for_node_id (message_id e) (rows t) in
    let t := with_progress (<[nid := 0]> (progress t)) t in
    let '(c, t) := id_to_color random (message_id e) t in
    insert_row row (new_Row_value e c) t
  end.

(** The first [k] iterations of the first loop of [_update], and the
    whole loop. *)
Definition scan_upto (random : nat → Color) (known : gmap Z TransferEvent)
    (t : JigNodeTable) (k : nat) : Scan :=
  foldl (update_existing random known)
    {| table := t; displayed_nodes := ∅; rows_to_remove := [] |}
    (seq 0 k).

Definition scan_rows (random : nat → Color) (known : gmap Z TransferEvent)
    (t : JigNodeTable) : Scan :=
  scan_upto random known t (length (rows t)).

(** [set(known_nodes.keys()) - displayed_nodes], the set the last loop of
    [_update] iterates over. *)
Definition new_nodes (random : nat → Color) (monitor : JigMonitor) (t : JigNodeTable)
    : gset Z :=
  dom (known_nodes monitor) ∖ displayed_nodes (scan_rows random (known_nodes monitor) t).

(** [_update()].  [order] is the order in which the last loop meets the
    elements of [new_nodes]; Python leaves the iteration order of a set
    open. *)
Definition _update (random : nat → Color) (order : list Z) (monitor : JigMonitor)
    (t : JigNodeTable) : JigNodeTable :=
  let known_nodes := known_nodes monitor in
  let sc := scan_rows random known_nodes t in
  let t := foldl (λ t row, removeRow row t) (table sc) (reverse (rows_to_remove sc)) in
  foldl (add_new random known_nodes) t order.

(** A monitor that knows the nodes 2 and 5, a table that shows the nodes 5
    and 9, and a colour generator. *)
Definition sample_monitor : JigMonitor :=
  {| _modules :=
       <[2 := {| message_id := 2; message_body := [20]; ts_monotonic := 100 |}]>
         (<[5 := {| message_id := 5; message_body := [50]; ts_monotonic := 90 |}]> ∅);
     _timer := Some 1600 |}.

Definition sample_table : JigNodeTable :=
  {| rows := [ {| id := 5; status := {| msg_id := 5; msg_body := [49] |}; color := 11 |};
               {| id := 9; status := {| msg_id := 9; msg_body := [90] |}; color := 12 |} ];
     progress := <[5 := 3]> (<[9 := 4]> ∅);
     row_color := <[5 := 11]> (<[9 := 12]> ∅);
     drawn := 2 |}.

Definition sample_random (k : nat) : Color := 100 + Z.of_nat k.

End JigTable.

(** ** Node property windows of the main window *)

Module NodeWindows.

(** The part of [MainWindow] that [_show_node_window] works on.  A
    [NodePropertiesWindow] is named by the order of its construction:
    [created] lists, for each window constructed so far, the node id it was
    made for; [closed] holds the windows that have been closed;
    [_node_windows] is the dictionary from node id to window. *)
Record MainWindow := {
  _node_windows : gmap Z nat;
  created : list Z;
  closed : gset nat
}.

Definition no_windows : MainWindow :=
  {| _node_windows := ∅; created := []; closed := ∅ |}.

(** [MainWindow._show_node_window(node_id)]. *)
Definition _show_node_window (node_id : Z) (w : MainWindow) : MainWindow :=
  let w :=
    match _node_windows w !! node_id with
    | Some old =>
      {| _node_windows := delete node_id (_node_windows w);
         created := created w;
         closed := {[ old ]} ∪ closed w |}
    | None => w
    end in
  let new := length (created w) in
  {| _node_windows := <[node_id := new]> (_node_windows w);
     created := created w ++ [node_id];
     closed := closed w |}.

(** What happens to the windows: the monitor widget asks for the window of
    a node, or the user closes a window that exists. *)
Inductive WindowEvent :=
| InfoRequested (node_id : Z)
| UserCloses (window : nat).

Definition window_step (w : MainWindow) (ev : WindowEvent) : MainWindow :=
  match ev with
  | InfoRequested node_id => _show_node_window node_id w
  | UserCloses k =>
    if bool_decide (k < length (created w))%nat then
      {| _node_windows := _node_windows w; created := created w;
         closed := {[ k ]} ∪ closed w |}
    else w
  end.

Definition window_run (w : MainWindow) (evs : list WindowEvent) : MainWindow :=
  foldl window_step w evs.

End NodeWindows.

(** ** The jig panel and its singleton *)

Module JigPanel.

(** The module-level [_singleton] and what the panels do to the node.  A
    panel is named by the order of its construction; [open] holds the
    panels that have not received their close event, [status_handles] the
    panels whose monitor still has its status handler registered. *)
Record Panels := {
  _singleton : option nat;
  constructed : nat;
  open : gset nat;
  status_handles : gset nat
}.

Definition no_panel : Panels :=
  {| _singleton := None; constructed := 0; open := ∅; status_handles := ∅ |}.

(** [spawn(parent, node)]: the panel returned and the state afterwards.
    Constructing a [JigPanel] constructs its [JigMonitor], which registers
    the status handler. *)
Definition spawn (w : Panels) : nat * Panels :=
  match _singleton w with
  | Some p => (p, w)
  | None =>
    let p := constructed w in
    (p, {| _singleton := Some p; constructed := S p;
           open := {[ p ]} ∪ open w;
           status_handles := {[ p ]} ∪ status_handles w |})
  end.

(** [JigPanel.closeEvent] of panel [p]: the singleton is cleared and the
    monitor is closed, which removes its status handler. *)
Definition closeEvent (p : nat) (w : Panels) : Panels :=
  {| _singleton := None; constructed := constructed w;
     open := open w ∖ {[ p ]};
     status_handles := status_handles w ∖ {[ p ]} |}.

(** [JigPanel.__del__]. *)
Definition __del__ (p : nat) (w : Panels) : Panels :=
  {| _singleton := None; constructed := constructed w;
     open := open w; status_handles := status_handles w |}.

(** The user picks the panel from the menu, closes an open panel, or a
    closed panel is finalised. *)
Inductive PanelEvent :=
| Spawn
| Close (p : nat)
| Finalise (p : nat).

(** A close event reaches only an open panel, a finaliser runs only for a
    panel that is no longer open. *)
Definition panel_step (w : Panels) (ev : PanelEvent) : Panels :=
  match ev with
  | Spawn => (spawn w).2
  | Close p => if bool_decide (p ∈ open w) then closeEvent p w else w
  | Finalise p =>
    if bool_decide ((p ∉ open w) ∧ (p < constructed w)%nat) then __del__ p w else w
  end.

Definition panel_run (w : Panels) (evs : list PanelEvent) : Panels :=
  foldl panel_step w evs.

Definition is_Finalise (ev : PanelEvent) : bool :=
  match ev with Finalise _ => true | _ => false end.

End JigPanel.

(** ** Program start *)

Module Launcher.

(** What [run_iface_config_window] does in one round of the loop of
    [main]: it raises, or it returns an interface name, [None] and the empty
    string standing for no choice. *)
Inductive ConfigOutcome :=
| ConfigRaises
| ConfigReturns (iface : option string).

(** What the attempt to start the node does: [uavcan.make_node] raises,
    the first [node.spin(0.1)] raises, or both succeed. *)
Inductive InitOutcome :=
| MakeNodeRaises
| SpinRaises
| NodeReady.

(** [not iface]. *)
Definition not_iface (iface : option string) : bool :=
  match iface with
  | None => true
  | Some name => bool_decide (name = "")
  end.

(** What [main] has done when it is left: the error dialogs shown, the
    nodes made and closed, whether the main window was shown, and the exit
    status. *)
Record Run := {
  errors_shown : list string;
  nodes_made : nat;
  nodes_closed : nat;
  window_shown : bool;
  exit_status : Z
}.

(** The [while True] loop of [main] on the outcomes of its successive
    rounds: the counters when the loop is left by [exit] ([inl]) or by
    [break] ([inr]); [None] when the rounds given are used up and the loop
    is still running. *)
Fixpoint main_loop (rounds : list (ConfigOutcome * InitOutcome))
    (errors : list string) (made : nat) : option (Run + (list string * nat)) :=
  match rounds with
  | [] => None
  | (cfg, init) :: rounds' =>
    match cfg with
    | ConfigRaises =>
      Some (inl {| errors_shown := errors ++ ["Could not list available interfaces"];
                   nodes_made := made; nodes_closed := 0; window_shown := false;
                   exit_status := 1 |})
    | ConfigReturns iface =>
      if not_iface iface then
        Some (inl {| errors_shown := errors; nodes_made := made; nodes_closed := 0;
                     window_shown := false; exit_status := 0 |})
      else
        match init with
        | MakeNodeRaises =>
          main_loop rounds' (errors ++ ["Could not initialize UAVCAN node"]) made
        | SpinRaises =>
          main_loop rounds' (errors ++ ["Could not initialize UAVCAN node"]) (S made)
        | NodeReady => Some (inr (errors, S made))
        end
    end
  end.

(** [main()]; [exit_code] is what [app.exec_()] returns. *)
Definition main (rounds : list (ConfigOutcome * InitOutcome)) (exit_code : Z)
    : option Run :=
  match main_loop rounds [] 0 with
  | None => None
  | Some (inl r) => Some r
  | Some (inr (errors, made)) =>
    Some {| errors_shown := errors; nodes_made := made; nodes_closed := 1;
            window_shown := true; exit_status := exit_code |}
  end.

(** A round in which an interface is chosen and the node fails to start. *)
Definition failed_start (round : ConfigOutcome * InitOutcome) : bool :=
  match round with
  | (ConfigReturns iface, MakeNodeRaises) => negb (not_iface iface)
  | (ConfigReturns iface, SpinRaises) => negb (not_iface iface)
  | _ => false
  end.

End Launcher.

(** * Properties *)

(** ** [request] and [broadcast] *)

Module ConsoleSpec.
Import Transport.
Import Console.

Lemma or_default_zero d : or_default (Some 0) d = or_default None d.
Proof. reflexivity. Qed.

Lemma or_default_nonzero p d : p ≠ 0 → or_default (Some p) d = p.
Proof. intros Hp. unfold or_default. by destruct (decide (p = 0)). Qed.

(** C10.  In [request] and in [broadcast] a priority of 0 is treated as an
    unset priority: the transport receives the default priority 30.  Any
    other priority is forwarded as given. *)
Theorem zero_priority_replaced_by_default
    (node : Node) (payload : Payload) (server_node_id now : Z)
    (callback : option Callback) (timeout : option Z) :
  is_anonymous node = false →
  request node payload server_node_id callback (Some 0) timeout
    = request node payload server_node_id callback None timeout
  ∧ (∃ call, request node payload server_node_id callback (Some 0) timeout = Ok call
             ∧ rq_priority call = 30)
  ∧ (∀ p, p ≠ 0 →
       ∃ call, request node payload server_node_id callback (Some p) timeout = Ok call
               ∧ rq_priority call = p)
  ∧ do_broadcast node now true payload (Some 0) = do_broadcast node now true payload None
  ∧ (∃ node', do_broadcast node now true payload (Some 0) = Ok node'
              ∧ broadcasts node' = broadcasts node ++
                  [{| tr_time := now; tr_payload := payload; tr_priority := 30 |}])
  ∧ (∀ p, p ≠ 0 →
       ∃ node', do_broadcast node now true payload (Some p) = Ok node'
                ∧ broadcasts node' = broadcasts node ++
                    [{| tr_time := now; tr_payload := payload; tr_priority := p |}]).
Proof.
  intros Hid. unfold request, throw_if_anonymous, do_broadcast, node_broadcast.
  rewrite Hid. repeat split.
  - eexists. split; [reflexivity | reflexivity].
  - intros p Hp. rewrite (or_default_nonzero p) by done.
    eexists. split; reflexivity.
  - eexists. split; [reflexivity | reflexivity].
  - intros p Hp. rewrite (or_default_nonzero p) by done.
    eexists. split; reflexivity.
Qed.

Lemma zero_priority_replaced_by_default_witness :
  is_anonymous fresh_node = false
  ∧ request fresh_node key_value 42 None (Some 0) None
    = request fresh_node key_value 42 None None None.
Proof.
  split; [reflexivity |].
  exact (proj1 (zero_priority_replaced_by_default fresh_node key_value 42 0 None None
                  eq_refl)).
Defined.

(** C8.  [broadcast] with a count or a duration but no interval raises the
    configuration error at once: no job is returned and the node has sent
    nothing, whatever the outcome of a send would have been. *)
Theorem broadcast_without_interval_raises
    (node : Node) (now : Z) (send_ok : bool) (payload : Payload)
    (priority count duration : option Z) :
  count ≠ None ∨ duration ≠ None →
  broadcast node now send_ok payload priority None count duration
    = (Raise ConfigurationError, node).
Proof.
  intros H. unfold broadcast.
  destruct count, duration; simpl; try reflexivity.
  destruct H; congruence.
Qed.

Lemma broadcast_without_interval_raises_witness :
  (Some 5 ≠ None ∨ (None : option Z) ≠ None)
  ∧ broadcast fresh_node 0 true key_value None None (Some 5) None
    = (Raise ConfigurationError, fresh_node).
Proof.
  assert (H : Some 5 ≠ None ∨ (None : option Z) ≠ None) by (left; discriminate).
  split; [exact H |].
  exact (broadcast_without_interval_raises fresh_node 0 true key_value None
           (Some 5) None H).
Defined.

End ConsoleSpec.

(** ** The periodic broadcaster *)

Module BroadcastSpec.
Import Transport.
Import Console.

Lemma job_step_deadline pol s ev :
  deadline (job_step pol s ev).1 = deadline s.1.
Proof.
  destruct s as [job node], ev as [now ok|]; simpl; [|reflexivity].
  destruct (timer_handle job); [|reflexivity].
  unfold process_next, do_broadcast, node_broadcast.
  destruct ok; simpl; [|reflexivity].
  by destruct (_ || _).
Qed.

(** Once the periodic event is gone, nothing is sent any more. *)
Lemma job_step_stopped pol s ev :
  timer_handle s.1 = false →
  timer_handle (job_step pol s ev).1 = false ∧ (job_step pol s ev).2 = s.2.
Proof.
  destruct s as [job node], ev as [now ok|]; simpl; intros Hoff.
  - by rewrite Hoff.
  - rewrite Hoff. by destruct pol.
Qed.

Lemma job_run_stopped pol evs s :
  timer_handle s.1 = false →
  timer_handle (job_run pol s evs).1 = false ∧ (job_run pol s evs).2 = s.2.
Proof.
  revert s. induction evs as [|ev evs IH]; intros s Hoff; [done|].
  destruct (job_step_stopped pol s ev Hoff) as [Hoff' Hnode].
  destruct (IH _ Hoff') as [H1 H2]. simpl.
  split; [exact H1 | by rewrite H2].
Qed.

(** A tick at or after the deadline ends the job, whether its send
    succeeds or not and whatever the count. *)
Lemma tick_past_deadline_stops pol s now ok :
  deadline s.1 ≤ now → timer_handle (job_step pol s (Tick now ok)).1 = false.
Proof.
  destruct s as [job node]; simpl. intros Hlate.
  destruct (timer_handle job) eqn:Hon; [|exact Hon].
  unfold process_next, do_broadcast, node_broadcast.
  destruct ok; simpl; [|reflexivity].
  rewrite (bool_decide_eq_true_2 _ Hlate), orb_true_r. reflexivity.
Qed.

Lemma Forall_removelast {A} (P : A → Prop) (l : list A) :
  Forall P l → Forall P (removelast l).
Proof.
  intros H. rewrite removelast_firstn_len. by apply Forall_take.
Qed.

(** The transfers sent since the call, [sent], are all before the
    deadline while the job runs; when it has stopped, all but the last
    one are. *)
Lemma sends_before_deadline_step pol base s ev :
  (∃ sent, broadcasts s.2 = base ++ sent ∧ sent ≠ [] ∧
     Forall (λ t, tr_time t < deadline s.1)
       (if timer_handle s.1 then sent else removelast sent)) →
  ∃ sent, broadcasts (job_step pol s ev).2 = base ++ sent ∧ sent ≠ [] ∧
    Forall (λ t, tr_time t < deadline (job_step pol s ev).1)
      (if timer_handle (job_step pol s ev).1 then sent else removelast sent).
Proof.
  intros (sent & Hsent & Hne & Hall).
  rewrite job_step_deadline.
  destruct (timer_handle s.1) eqn:Hon.
  2:{ destruct (job_step_stopped pol s ev Hon) as [-> ->]. by exists sent. }
  destruct s as [job node], ev as [now ok|]; simpl in *.
  - rewrite Hon. unfold process_next, do_broadcast, node_broadcast.
    destruct ok; simpl.
    + destruct (count_reached _ _ || bool_decide (deadline job ≤ now)) eqn:Hstop;
        simpl; rewrite Hsent, <- app_assoc; eexists; (split; [reflexivity|]);
        (split; [by destruct sent|]).
      * by rewrite removelast_last.
      * rewrite Hon. apply Forall_app; split; [done|].
        apply Forall_singleton; simpl.
        apply orb_false_iff in Hstop as [_ Hd].
        apply bool_decide_eq_false in Hd. lia.
    + exists sent. repeat split; [done..|]. by apply Forall_removelast.
  - exists sent. repeat split; [done..|]. rewrite Hon; simpl.
    by apply Forall_removelast.
Qed.

Lemma sends_before_deadline_run pol base evs s :
  (∃ sent, broadcasts s.2 = base ++ sent ∧ sent ≠ [] ∧
     Forall (λ t, tr_time t < deadline s.1)
       (if timer_handle s.1 then sent else removelast sent)) →
  ∃ sent, broadcasts (job_run pol s evs).2 = base ++ sent ∧ sent ≠ [] ∧
    Forall (λ t, tr_time t < deadline (job_run pol s evs).1)
      (if timer_handle (job_run pol s evs).1 then sent else removelast sent).
Proof.
  revert s. induction evs as [|ev evs IH]; intros s H; [done|].
  simpl. apply IH. by apply sends_before_deadline_step.
Qed.

Lemma job_run_deadline pol evs s :
  deadline (job_run pol s evs).1 = deadline s.1.
Proof.
  revert s. induction evs as [|ev evs IH]; intros s; [done|].
  simpl. by rewrite IH, job_step_deadline.
Qed.

Lemma late_tick_stops_run pol evs s :
  Exists (λ ev, ∃ now ok, ev = Tick now ok ∧ deadline s.1 ≤ now) evs →
  timer_handle (job_run pol s evs).1 = false.
Proof.
  revert s. induction evs as [|ev evs IH]; intros s H.
  - by apply Exists_nil in H.
  - simpl. apply Exists_cons in H as [(now & ok & -> & Hlate) | H].
    + apply job_run_stopped. by apply tick_past_deadline_stops.
    + apply IH. by rewrite job_step_deadline.
Qed.

(** What a successful [broadcast] with an interval returns. *)
Lemma broadcast_periodic_inv node now0 payload priority i count duration job node' :
  broadcast node now0 true payload priority (Some i) count duration
    = (Ok (Some job), node') →
  deadline job = now0 + default thousand_years duration
  ∧ job_count job = count ∧ num_broadcasted job = 1 ∧ timer_handle job = true
  ∧ ∃ t, broadcasts node' = broadcasts node ++ [t] ∧ tr_time t = now0.
Proof.
  unfold broadcast, throw_if_anonymous, do_broadcast, node_broadcast. simpl.
  destruct (is_anonymous node); [discriminate|].
  intros [= <- <-]. simpl. repeat split. by eexists.
Qed.

(** C3, as stated, fails.  A broadcaster started at time 0 with a
    duration of 1000 sends at its tick at time 1000: that transfer is not
    before the deadline 0 + 1000. *)
Lemma broadcast_sends_at_deadline :
  match broadcast fresh_node 0 true key_value None (Some 100) None (Some 1000) with
  | (Ok (Some job), node) =>
    deadline job = 0 + 1000 ∧
    ¬ Forall (λ t, tr_time t < 0 + 1000)
        (broadcasts (job_run RaiseWhenAbsent (job, node) [Tick 1000 true]).2)
  | _ => False
  end.
Proof.
  simpl. split; [reflexivity|].
  intros H. apply Forall_cons in H as [_ H].
  apply Forall_cons in H as [H _]. simpl in H. lia.
Qed.

(** C3, amended.  For [broadcast(p, interval=i, duration=d)] with [d > 0]
    issued at [now0], whatever the count: every transfer sent by the call
    and its job, except possibly the last one, is sent before
    [now0 + d]; and once a periodic tick at or after [now0 + d] has been
    run, the periodic registration is removed. *)
Theorem broadcast_duration_bound
    (pol : RemovePolicy) (node node' : Node) (now0 i d : Z) (payload : Payload)
    (priority count : option Z) (job : BroadcastJob) (evs : list JobEvent) :
  0 < d →
  broadcast node now0 true payload priority (Some i) count (Some d)
    = (Ok (Some job), node') →
  Forall (λ t, tr_time t < now0 + d)
    (removelast (drop (length (broadcasts node))
                   (broadcasts (job_run pol (job, node') evs).2)))
  ∧ (Exists (λ ev, ∃ now ok, ev = Tick now ok ∧ now0 + d ≤ now) evs →
     timer_handle (job_run pol (job, node') evs).1 = false).
Proof.
  intros Hd Hcall.
  apply broadcast_periodic_inv in Hcall as (Hdl & _ & _ & Hon & t & Hsent & Ht).
  simpl in Hdl. split.
  - destruct (sends_before_deadline_run pol (broadcasts node) evs (job, node'))
      as (sent & Hrun & _ & Hall).
    { exists [t]. simpl. rewrite Hon, Hdl.
      repeat split; [done..|]. apply Forall_singleton. lia. }
    rewrite Hrun, drop_app_length.
    rewrite job_run_deadline in Hall. simpl in Hall. rewrite Hdl in Hall.
    destruct (timer_handle (job_run pol (job, node') evs).1);
      [by apply Forall_removelast | done].
  - intros Hlate. apply late_tick_stops_run. simpl. by rewrite Hdl.
Qed.

Lemma broadcast_duration_bound_witness :
  0 < 1000
  ∧ Forall (λ t, tr_time t < 0 + 1000)
      (removelast (drop (length (broadcasts fresh_node))
         (broadcasts
            (job_run RaiseWhenAbsent
               ({| job_payload := key_value; job_priority := None;
                   job_count := None; deadline := 0 + 1000;
                   num_broadcasted := 1; timer_handle := true |},
                {| is_anonymous := false;
                   broadcasts := [{| tr_time := 0; tr_payload := key_value;
                                     tr_priority := 30 |}] |})
               [Tick 500 true; Tick 1000 true; Tick 1500 true]).2))).
Proof.
  assert (H : 0 < 1000) by lia.
  split; [exact H|].
  exact (proj1 (broadcast_duration_bound RaiseWhenAbsent fresh_node _ 0 100 1000
                  key_value None None _
                  [Tick 500 true; Tick 1000 true; Tick 1500 true] H eq_refl)).
Defined.

(** With a count [n ≥ 2], no duration, sends that succeed and ticks that
    all come before the default deadline, the broadcaster sends until
    [num_broadcasted] reaches [n], then stops. *)
Lemma counted_job_run pol n ticks job node :
  timer_handle job = true →
  job_count job = Some n →
  num_broadcasted job < n →
  Forall (λ t, t < deadline job) ticks →
  (Z.to_nat (n - num_broadcasted job) ≤ length ticks)%nat →
  let s := job_run pol (job, node) (map (λ t, Tick t true) ticks) in
  length (broadcasts s.2)
    = (length (broadcasts node) + Z.to_nat (n - num_broadcasted job))%nat
  ∧ timer_handle s.1 = false.
Proof.
  revert job node. induction ticks as [|t ticks IH]; intros job node Hon Hc Hnum Hall Hlen.
  - simpl in Hlen. lia.
  - apply Forall_cons in Hall as [Ht Hall]. simpl.
    rewrite Hon. unfold process_next, do_broadcast, node_broadcast. simpl.
    rewrite Hc. simpl.
    rewrite (bool_decide_eq_false_2 (deadline job ≤ t)) by lia.
    rewrite orb_false_r.
    destruct (bool_decide (n ≤ num_broadcasted job + 1)) eqn:Hstop.
    + apply bool_decide_eq_true in Hstop.
      match goal with |- context [job_run pol ?s ?evs] =>
        destruct (job_run_stopped pol evs s eq_refl) as [Hoff Hnode]
      end.
      rewrite Hnode, Hoff. simpl. rewrite length_app. simpl.
      replace (Z.to_nat (n - num_broadcasted job)) with 1%nat by lia.
      done.
    + apply bool_decide_eq_false in Hstop.
      match goal with |- context [job_run pol (?j, ?nd) _] =>
        destruct (IH j nd) as (H1 & H2)
      end; simpl; try done; try lia.
      { simpl in Hlen. lia. }
      rewrite H1, H2. simpl. rewrite length_app. simpl.
      split; [lia | done].
Qed.

(** For a count of at least 2 the count is honoured: the immediate send
    and [n - 1] periodic ones. *)
Lemma broadcast_count_exact
    (pol : RemovePolicy) (node node' : Node) (now0 i n : Z) (payload : Payload)
    (priority : option Z) (job : BroadcastJob) (ticks : list Z) :
  2 ≤ n →
  broadcast node now0 true payload priority (Some i) (Some n) None
    = (Ok (Some job), node') →
  Forall (λ t, t < now0 + thousand_years) ticks →
  (Z.to_nat (n - 1) ≤ length ticks)%nat →
  length (broadcasts (job_run pol (job, node') (map (λ t, Tick t true) ticks)).2)
    = (length (broadcasts node) + Z.to_nat n)%nat
  ∧ timer_handle (job_run pol (job, node') (map (λ t, Tick t true) ticks)).1 = false.
Proof.
  intros Hn Hcall Hticks Hlen.
  apply broadcast_periodic_inv in Hcall as (Hdl & Hc & Hnum & Hon & t & Hsent & _).
  simpl in Hdl.
  destruct (counted_job_run pol n ticks job node') as [H1 H2];
    rewrite ?Hnum, ?Hdl; try done; try lia.
  rewrite H1, H2, Hsent, length_app, Hnum. simpl. split; [lia | done].
Qed.

Lemma broadcast_count_exact_witness :
  2 ≤ 3
  ∧ length (broadcasts
      (job_run RaiseWhenAbsent
         ({| job_payload := key_value; job_priority := None;
             job_count := Some 3; deadline := 0 + thousand_years;
             num_broadcasted := 1; timer_handle := true |},
          {| is_anonymous := false;
             broadcasts := [{| tr_time := 0; tr_payload := key_value;
                               tr_priority := 30 |}] |})
         (map (λ t, Tick t true) [100; 200; 300; 400])).2)
    = (length (broadcasts fresh_node) + Z.to_nat 3)%nat.
Proof.
  assert (H : 2 ≤ 3) by lia.
  split; [exact H|].
  refine (proj1 (broadcast_count_exact RaiseWhenAbsent fresh_node _ 0 100 3
                   key_value None _ [100; 200; 300; 400] H eq_refl _ _)).
  - repeat constructor.
  - simpl. lia.
Defined.

(** C4 at [count = 1].  The count is only examined after a periodic send:
    [broadcast(p, interval=i, count=1)] sends once at the call and once
    more at the first tick, two transfers in all, and only then removes
    the periodic registration. *)
Theorem broadcast_count_one_sends_twice
    (pol : RemovePolicy) (now0 i t : Z) (payload : Payload)
    (priority : option Z) (evs : list JobEvent) :
  match broadcast fresh_node now0 true payload priority (Some i) (Some 1) None with
  | (Ok (Some job), node) =>
    timer_handle job = true
    ∧ length (broadcasts (job_run pol (job, node) (Tick t true :: evs)).2) = 2%nat
    ∧ timer_handle (job_run pol (job, node) (Tick t true :: evs)).1 = false
  | _ => False
  end.
Proof.
  unfold broadcast, throw_if_anonymous, do_broadcast, node_broadcast. simpl.
  split; [reflexivity|].
  match goal with |- context [job_run pol ?s evs] =>
    destruct (job_run_stopped pol evs s eq_refl) as [Hoff Hnode]
  end.
  by rewrite Hnode, Hoff.
Qed.

End BroadcastSpec.

(** ** Subscriptions *)

Module SubscribeSpec.
Import Transport.
Import Console.
Import Subscribe.

Ltac unfold_sub :=
  unfold sub_step, process_callback, invoke_callback, cancel_callback,
    handle_remove, remove, call_on_end, set_sub_handle, set_timer_handle,
    try_remove_timer, status, is_pending in *.

Ltac crush_sub :=
  unfold_sub; simpl in *;
  repeat (case_match; simpl in *; simplify_eq; try lia; try done);
  try (repeat split; intros; simplify_eq; first [done | lia]).


(** [on_end] has not been invoked while the handler is registered or the
    deferred event is scheduled, and it is never invoked twice. *)
Lemma on_end_pending_step pol s ev :
  (sub_handle s = true → on_end_calls s = 0%nat) →
  (is_pending (timer_handle s) = true → on_end_calls s = 0%nat) →
  (on_end_calls s ≤ 1)%nat →
  (sub_handle (sub_step pol s ev) = true → on_end_calls (sub_step pol s ev) = 0%nat)
  ∧ (is_pending (timer_handle (sub_step pol s ev)) = true →
     on_end_calls (sub_step pol s ev) = 0%nat)
  ∧ (on_end_calls (sub_step pol s ev) ≤ 1)%nat.
Proof.
  destruct s as [cb c oe sh th calls rets oec].
  destruct ev as [ok| |], pol, sh, th, oe; simpl; intros H1 H2 H3;
    try specialize (H1 eq_refl); try specialize (H2 eq_refl); subst;
    crush_sub.
Qed.

Lemma on_end_pending_run pol evs s :
  (sub_handle s = true → on_end_calls s = 0%nat) →
  (is_pending (timer_handle s) = true → on_end_calls s = 0%nat) →
  (on_end_calls s ≤ 1)%nat →
  (sub_handle (sub_run pol s evs) = true → on_end_calls (sub_run pol s evs) = 0%nat)
  ∧ (is_pending (timer_handle (sub_run pol s evs)) = true →
     on_end_calls (sub_run pol s evs) = 0%nat)
  ∧ (on_end_calls (sub_run pol s evs) ≤ 1)%nat.
Proof.
  revert s. induction evs as [|ev evs IH]; intros s H1 H2 H3; [done|].
  simpl. destruct (on_end_pending_step pol s ev H1 H2 H3) as (? & ? & ?).
  by apply IH.
Qed.

Lemma on_end_step pol s ev : on_end (sub_step pol s ev) = on_end s.
Proof. destruct s, ev, pol; crush_sub. Qed.

Lemma on_end_run pol evs s : on_end (sub_run pol s evs) = on_end s.
Proof.
  revert s. induction evs as [|ev evs IH]; intros s; [done|].
  simpl. by rewrite IH, on_end_step.
Qed.

Lemma on_end_calls_mono_step pol s ev :
  (on_end_calls s ≤ on_end_calls (sub_step pol s ev))%nat.
Proof. destruct s, ev, pol; crush_sub. Qed.

Lemma on_end_calls_mono_run pol evs s :
  (on_end_calls s ≤ on_end_calls (sub_run pol s evs))%nat.
Proof.
  revert s. induction evs as [|ev evs IH]; intros s; [done|].
  simpl. etrans; [apply (on_end_calls_mono_step pol s ev) | apply IH].
Qed.

(** When removing an absent registration raises, [on_end] is invoked only
    in a step that takes the handler from registered to removed. *)
Lemma on_end_only_on_termination s ev :
  on_end_calls (sub_step RaiseWhenAbsent s ev) ≠ on_end_calls s →
  status s = ACTIVE ∧ status (sub_step RaiseWhenAbsent s ev) = TERMINATED.
Proof. destruct s, ev; crush_sub. Qed.

(** A delivery that ends the subscription (by count or by a failing
    callback) cancels the deferred event and invokes [on_end], if set. *)
Lemma terminating_delivery pol s ok :
  sub_handle s = true →
  sub_handle (sub_step pol s (Deliver ok)) = false →
  is_pending (timer_handle (sub_step pol s (Deliver ok))) = false
  ∧ on_end_calls (sub_step pol s (Deliver ok))
    = if on_end s then S (on_end_calls s) else on_end_calls s.
Proof. destruct s, pol; crush_sub. Qed.

(** What a successful [subscribe] returns. *)
Lemma subscribe_inv now cb c d oe s0 :
  subscribe now cb c d oe = Ok s0 →
  sub_handle s0 = true ∧ count s0 = c ∧ on_end s0 = oe
  ∧ timer_handle s0 = match d with Some d => Pending (now + d) | None => NoTimer end
  ∧ callback_calls s0 = 0%nat ∧ callback_returns s0 = 0%nat
  ∧ on_end_calls s0 = 0%nat.
Proof.
  unfold subscribe. case_match; [discriminate|]. by intros [= <-].
Qed.

(** C1.  For a subscription with [on_end] set and any sequence of
    deliveries (with succeeding or failing callbacks), expiries of the
    deferred event and manual removals: [on_end] is invoked at most once,
    whatever the transport does on removing an absent registration; with a
    transport that raises there, each invocation happens in a step that
    takes the job from ACTIVE to TERMINATED; and once a delivery has
    terminated the job and invoked [on_end], the deferred event is no
    longer scheduled and no later event invokes [on_end] again. *)
Theorem on_end_at_most_once
    (now : Z) (cb : option Callback) (c d : option Z) (s0 : Subscription)
    (evs : list SubEvent) :
  subscribe now cb c d true = Ok s0 →
  (∀ pol, (on_end_calls (sub_run pol s0 evs) ≤ 1)%nat)
  ∧ (∀ ev,
       on_end_calls (sub_step RaiseWhenAbsent (sub_run RaiseWhenAbsent s0 evs) ev)
         ≠ on_end_calls (sub_run RaiseWhenAbsent s0 evs) →
       status (sub_run RaiseWhenAbsent s0 evs) = ACTIVE
       ∧ status (sub_step RaiseWhenAbsent (sub_run RaiseWhenAbsent s0 evs) ev)
         = TERMINATED)
  ∧ (∀ pol ok evs',
       sub_handle (sub_run pol s0 evs) = true →
       sub_handle (sub_step pol (sub_run pol s0 evs) (Deliver ok)) = false →
       on_end_calls (sub_step pol (sub_run pol s0 evs) (Deliver ok)) = 1%nat
       ∧ is_pending
           (timer_handle (sub_step pol (sub_run pol s0 evs) (Deliver ok))) = false
       ∧ on_end_calls
           (sub_run pol (sub_step pol (sub_run pol s0 evs) (Deliver ok))
              (Expire :: evs')) = 1%nat).
Proof.
  intros Hsub.
  apply subscribe_inv in Hsub as (Hh & _ & Hoe & _ & _ & _ & Hzero).
  assert (Hinv : ∀ pol evs,
    (sub_handle (sub_run pol s0 evs) = true →
     on_end_calls (sub_run pol s0 evs) = 0%nat)
    ∧ (is_pending (timer_handle (sub_run pol s0 evs)) = true →
       on_end_calls (sub_run pol s0 evs) = 0%nat)
    ∧ (on_end_calls (sub_run pol s0 evs) ≤ 1)%nat).
  { intros pol evs0. apply on_end_pending_run; intros; lia. }
  split; [|split].
  - intros pol. apply Hinv.
  - intros ev. apply on_end_only_on_termination.
  - intros pol ok evs' Hreg Hterm.
    destruct (terminating_delivery pol _ ok Hreg Hterm) as [Hpend Hcalls].
    rewrite on_end_run, Hoe in Hcalls.
    destruct (Hinv pol evs) as (H0 & _ & _). rewrite (H0 Hreg) in Hcalls.
    split; [exact Hcalls|]. split; [exact Hpend|].
    pose proof (on_end_calls_mono_run pol (Expire :: evs')
                  (sub_step pol (sub_run pol s0 evs) (Deliver ok))) as Hge.
    destruct (Hinv pol (evs ++ Deliver ok :: Expire :: evs')) as (_ & _ & Hle).
    unfold sub_run in *. rewrite foldl_app in Hle. simpl in *. lia.
Qed.

Lemma on_end_at_most_once_witness :
  subscribe 0 None (Some 2) (Some 1000) true
    = Ok {| callback := print_yaml; count := Some 2; on_end := true;
            sub_handle := true; timer_handle := Pending 1000;
            callback_calls := 0; callback_returns := 0; on_end_calls := 0 |}
  ∧ (on_end_calls
       (sub_run RaiseWhenAbsent
          {| callback := print_yaml; count := Some 2%Z; on_end := true;
             sub_handle := true; timer_handle := Pending 1000%Z;
             callback_calls := 0; callback_returns := 0; on_end_calls := 0 |}
          [Deliver true; Deliver true; Expire; Remove]) ≤ 1)%nat.
Proof.
  split; [reflexivity|].
  exact (proj1 (on_end_at_most_once 0 None (Some 2) (Some 1000) _
                  [Deliver true; Deliver true; Expire; Remove] eq_refl)
           RaiseWhenAbsent).
Defined.

(** With a transport whose removal of an absent registration is silent,
    the deferred event that fires after a manual removal still invokes
    [on_end]: the one invocation then happens in a job that is already
    TERMINATED. *)
Remark silent_removal_on_end_after_remove :
  match subscribe 0 None None (Some 1000) true with
  | Ok s =>
    status (sub_run SilentWhenAbsent s [Remove]) = TERMINATED
    ∧ on_end_calls (sub_run SilentWhenAbsent s [Remove]) = 0%nat
    ∧ on_end_calls (sub_run SilentWhenAbsent s [Remove; Expire]) = 1%nat
    ∧ on_end_calls (sub_run RaiseWhenAbsent s [Remove; Expire]) = 0%nat
  | Raise _ => False
  end.
Proof. by simpl. Qed.

(** C2, as stated, fails.  [remove()] on the handle of an ACTIVE
    subscription with a duration and [on_end] set leaves the deferred
    event scheduled and does not invoke [on_end], with either kind of
    transport handle. *)
Lemma remove_neither_cancels_timer_nor_calls_on_end :
  match subscribe 0 None None (Some 1000) true with
  | Ok s =>
    status s = ACTIVE
    ∧ ¬ (is_pending (timer_handle (handle_remove RaiseWhenAbsent s).2) = false
         ∧ on_end_calls (handle_remove RaiseWhenAbsent s).2 = 1%nat)
    ∧ ¬ (is_pending (timer_handle (handle_remove SilentWhenAbsent s).2) = false
         ∧ on_end_calls (handle_remove SilentWhenAbsent s).2 = 1%nat)
  | Raise _ => False
  end.
Proof. simpl. split; [done|]. split; intros [? ?]; discriminate. Qed.

(** C2, amended.  [remove()] on the handle returned by [subscribe], at
    any point of the subscription's life, unregisters the message handler
    and changes nothing else: the deferred event keeps its state and
    [on_end] is not invoked by the call.  While the job is ACTIVE the call
    returns normally.  A further [remove()] leaves the state as it is. *)
Theorem remove_unregisters_handler_only
    (pol : RemovePolicy) (now : Z) (cb : option Callback) (c d : option Z)
    (oe : bool) (s0 : Subscription) (evs : list SubEvent) :
  subscribe now cb c d oe = Ok s0 →
  let s := sub_run pol s0 evs in
  let s' := (handle_remove pol s).2 in
  status s' = TERMINATED
  ∧ timer_handle s' = timer_handle s
  ∧ on_end_calls s' = on_end_calls s
  ∧ count s' = count s
  ∧ callback_calls s' = callback_calls s
  ∧ (status s = ACTIVE → (handle_remove pol s).1 = Ok tt)
  ∧ (handle_remove pol s').2 = s'.
Proof.
  intros _. simpl. generalize (sub_run pol s0 evs). intros s.
  destruct s as [? ? ? sh ? ? ? ?], pol, sh; by simpl.
Qed.

Lemma remove_unregisters_handler_only_witness :
  subscribe 0 None None (Some 1000) true
    = Ok {| callback := print_yaml; count := None; on_end := true;
            sub_handle := true; timer_handle := Pending 1000;
            callback_calls := 0; callback_returns := 0; on_end_calls := 0 |}
  ∧ timer_handle
      (handle_remove RaiseWhenAbsent
         (sub_run RaiseWhenAbsent
            {| callback := print_yaml; count := None; on_end := true;
               sub_handle := true; timer_handle := Pending 1000;
               callback_calls := 0; callback_returns := 0; on_end_calls := 0 |}
            [Deliver true])).2
    = Pending 1000.
Proof.
  split; [reflexivity|].
  exact (proj1 (proj2 (remove_unregisters_handler_only RaiseWhenAbsent 0 None None
                         (Some 1000) true _ [Deliver true] eq_refl))).
Defined.






End SubscribeSpec.

(** ** The spin timer *)

Module SpinSpec.
Import Transport.
Import Spin.

Lemma _spin_node_catches w o :
  returns_or_errors o = true →
  (_spin_node w o).1 = Ok tt
  ∧ spin_calls (_spin_node w o).2 = S (spin_calls w)
  ∧ error_log (_spin_node w o).2
    = error_log w ++ from_option (λ ex, [ex]) [] (raised_Exception o).
Proof.
  destruct o as [|ex]; simpl.
  - intros _. by rewrite app_nil_r.
  - intros ->. done.
Qed.

(** C9.  When every failure of [spin] is an error (an [Exception]), each
    tick's handler returns normally with the error logged, and the timer
    loop runs every tick: [spin] is invoked once per tick, also after
    ticks on which it raised. *)
Theorem spin_errors_do_not_stop_ticks (w : MainWindow) (outcomes : list SpinOutcome) :
  Forall (λ o, returns_or_errors o = true) outcomes →
  (run_timer w outcomes).1 = Ok tt
  ∧ spin_calls (run_timer w outcomes).2 = (spin_calls w + length outcomes)%nat
  ∧ error_log (run_timer w outcomes).2
    = error_log w ++ omap raised_Exception outcomes
  ∧ Forall (λ o, ∀ w', (_spin_node w' o).1 = Ok tt) outcomes.
Proof.
  intros Hall. revert w.
  induction Hall as [|o outcomes Ho Hall IH]; intros w.
  - simpl. by rewrite app_nil_r, Nat.add_0_r.
  - destruct (_spin_node_catches w o Ho) as (Hret & Hcalls & Hlog).
    destruct (IH (_spin_node w o).2) as (IH1 & IH2 & IH3 & IH4).
    simpl. destruct (_spin_node w o) as [[[]|e] w'] eqn:Hstep; simpl in *;
      [|discriminate].
    rewrite IH1, IH2, IH3, Hcalls, Hlog.
    repeat split.
    + lia.
    + rewrite <- app_assoc. f_equal. by destruct (raised_Exception o).
    + constructor; [|done]. intros w''. by apply _spin_node_catches.
Qed.

Lemma spin_errors_do_not_stop_ticks_witness :
  Forall (λ o, returns_or_errors o = true)
    [Returns; Raises TransportError; Returns; Raises ValueError; Returns]
  ∧ spin_calls
      (run_timer {| spin_calls := 0; error_log := [] |}
         [Returns; Raises TransportError; Returns; Raises ValueError; Returns]).2
    = (0 + 5)%nat.
Proof.
  assert (H : Forall (λ o, returns_or_errors o = true)
                [Returns; Raises TransportError; Returns; Raises ValueError; Returns])
    by (repeat constructor).
  split; [exact H|].
  exact (proj1 (proj2 (spin_errors_do_not_stop_ticks
                         {| spin_calls := 0; error_log := [] |} _ H))).
Defined.

End SpinSpec.

(** ** The jig monitor *)

Module JigSpec.
Import Jig.

Lemma sweep_lookup now (m : gmap Z TransferEvent) nid e :
  sweep now m !! nid = Some e ↔ m !! nid = Some e ∧ ¬ stale now e.
Proof. unfold sweep. by rewrite map_lookup_filter_Some. Qed.


(** C6, as stated, fails.  A record whose age at the sweep is exactly the
    timeout is retained. *)
Lemma sweep_keeps_record_of_age_timeout :
  let e := {| message_id := 1; message_body := []; ts_monotonic := 0 |} in
  let j := check_for_stale 2000 {| _modules := {[ 1 := e ]}; _timer := None |} in
  _modules j !! 1 = Some e
  ∧ ¬ (2000 - ts_monotonic e < seconds TIMEOUT).
Proof.
  simpl. split.
  - apply sweep_lookup. split; [apply lookup_singleton_eq|].
    unfold stale, seconds, TIMEOUT. simpl. lia.
  - unfold seconds, TIMEOUT. lia.
Qed.

(** C6, amended.  A sweep at [now] retains exactly the records with
    [now - ts_monotonic ≤ TIMEOUT] and removes exactly those older than
    [TIMEOUT]; this is the state left by [check_for_stale], by the status
    callback and by the timer's timeout. *)
Theorem sweep_retains_up_to_timeout
    (now : Z) (j : JigMonitor) (event : TransferEvent) (nid : Z) (e : TransferEvent) :
  (_modules (check_for_stale now j) !! nid = Some e
     ↔ _modules j !! nid = Some e ∧ now - ts_monotonic e ≤ seconds TIMEOUT)
  ∧ (_modules (timer_timeout now j) !! nid = Some e
     ↔ _modules j !! nid = Some e ∧ now - ts_monotonic e ≤ seconds TIMEOUT)
  ∧ (_modules (jig_status_callback now event j) !! nid = Some e
     ↔ <[message_id event := event]> (_modules j) !! nid = Some e
       ∧ now - ts_monotonic e ≤ seconds TIMEOUT).
Proof.
  unfold jig_status_callback, timer_timeout, check_for_stale. simpl.
  rewrite !sweep_lookup. unfold stale.
  split; [|split]; (split; intros [? ?]; (split; [done | lia])).
Qed.

(** [find_all] reads the mapping and nothing else. *)
Lemma find_all_spec predicate j e :
  e ∈ find_all predicate j
  ↔ predicate e = true ∧ ∃ nid, _modules j !! nid = Some e.
Proof.
  unfold find_all. rewrite list_elem_of_filter, list_elem_of_fmap.
  split.
  - intros [Hp ([nid e'] & -> & Hin)]. split; [done|].
    exists nid. by apply elem_of_map_to_list.
  - intros [Hp [nid Hnid]]. split; [done|].
    exists (nid, e). split; [done|]. by apply elem_of_map_to_list.
Qed.






End JigSpec.


(** * Further properties of the modelled code *)

(** ** [request] and the call of [broadcast] *)

Module ConsoleMore.
Import Transport.
Import Console.

(** In anonymous mode nothing reaches the node: [request] raises, and
    [broadcast] raises with the node unchanged and without a job, for every
    choice of the other arguments and whatever a send would have done. *)
Theorem anonymous_node_sends_nothing
    (node : Node) (now server_node_id : Z) (send_ok : bool) (payload : Payload)
    (callback : option Callback) (priority timeout interval count duration : option Z) :
  is_anonymous node = true →
  request node payload server_node_id callback priority timeout
    = Raise (RuntimeError anonymous_msg)
  ∧ ∃ e, broadcast node now send_ok payload priority interval count duration
         = (Raise e, node).
Proof.
  intros Hanon. unfold request, broadcast, throw_if_anonymous. rewrite Hanon.
  split; [done|]. destruct (_ && _); by eexists.
Qed.

Lemma anonymous_node_sends_nothing_witness :
  is_anonymous {| is_anonymous := true; broadcasts := [] |} = true
  ∧ request {| is_anonymous := true; broadcasts := [] |} key_value 42 None None None
    = Raise (RuntimeError anonymous_msg).
Proof.
  split; [reflexivity|].
  exact (proj1 (anonymous_node_sends_nothing {| is_anonymous := true; broadcasts := [] |}
                  0 42 true key_value None None None None None None eq_refl)).
Defined.

(** A call of [broadcast] either raises and leaves the node as it was, or
    returns after exactly one transfer has been sent, at the time of the
    call; it returns a job handle exactly when an interval was given, and
    that job starts registered with one broadcast counted. *)
Theorem broadcast_raises_or_sends_once
    (node node' : Node) (now : Z) (send_ok : bool) (payload : Payload)
    (priority interval count duration : option Z) (r : Result (option BroadcastJob)) :
  broadcast node now send_ok payload priority interval count duration = (r, node') →
  (∃ e, r = Raise e ∧ node' = node)
  ∨ (∃ handle t, r = Ok handle
       ∧ broadcasts node' = broadcasts node ++ [t]
       ∧ tr_time t = now
       ∧ tr_priority t = or_default priority default_transfer_priority
       ∧ (is_Some handle ↔ is_Some interval)
       ∧ ∀ job, handle = Some job →
           timer_handle job = true ∧ num_broadcasted job = 1
           ∧ job_count job = count).
Proof.
  unfold broadcast, throw_if_anonymous, do_broadcast, node_broadcast.
  destruct (_ && _); [intros [= <- <-]; left; by eexists|].
  destruct (is_anonymous node); [intros [= <- <-]; left; by eexists|].
  destruct send_ok; [|intros [= <- <-]; left; by eexists].
  destruct interval as [i|]; intros [= <- <-]; right; eexists _, _;
    (split; [reflexivity|]); simpl; repeat split; try done;
    by simplify_eq.
Qed.

Lemma broadcast_raises_or_sends_once_witness :
  ∃ r node',
    broadcast fresh_node 5 true key_value (Some 7) None None None = (r, node')
    ∧ ((∃ e, r = Raise e ∧ node' = fresh_node)
       ∨ (∃ handle t, r = Ok handle
            ∧ broadcasts node' = broadcasts fresh_node ++ [t]
            ∧ tr_time t = 5
            ∧ tr_priority t = or_default (Some 7) default_transfer_priority
            ∧ (is_Some handle ↔ is_Some (None : option Z))
            ∧ ∀ job, handle = Some job →
                timer_handle job = true ∧ num_broadcasted job = 1
                ∧ job_count job = None)).
Proof.
  eexists _, _. split; [reflexivity|].
  exact (broadcast_raises_or_sends_once fresh_node _ 5 true key_value (Some 7)
           None None None _ eq_refl).
Defined.

End ConsoleMore.

(** ** The periodic broadcaster, continued *)

Module BroadcastMore.
Import Transport.
Import Console.
Import BroadcastSpec.

Lemma job_step_fields pol s ev :
  job_payload (job_step pol s ev).1 = job_payload s.1
  ∧ job_priority (job_step pol s ev).1 = job_priority s.1
  ∧ job_count (job_step pol s ev).1 = job_count s.1.
Proof.
  destruct s as [job node], ev as [now ok|]; simpl; [|done].
  destruct (timer_handle job); [|done].
  unfold process_next, do_broadcast, node_broadcast.
  destruct ok; simpl; [|done]. by destruct (_ || _).
Qed.

(** One step keeps the books: the transfers sent since the call are as
    many as [num_broadcasted] says and all carry the job's payload and
    effective priority. *)
Lemma job_books_step pol base s ev :
  (∃ sent, broadcasts s.2 = base ++ sent
     ∧ Z.of_nat (length sent) = num_broadcasted s.1
     ∧ Forall (λ t, tr_payload t = job_payload s.1
                    ∧ tr_priority t
                      = or_default (job_priority s.1) default_transfer_priority) sent) →
  ∃ sent, broadcasts (job_step pol s ev).2 = base ++ sent
    ∧ Z.of_nat (length sent) = num_broadcasted (job_step pol s ev).1
    ∧ Forall (λ t, tr_payload t = job_payload (job_step pol s ev).1
                   ∧ tr_priority t
                     = or_default (job_priority (job_step pol s ev).1)
                         default_transfer_priority) sent.
Proof.
  intros (sent & Hsent & Hnum & Hall).
  destruct (job_step_fields pol s ev) as (-> & -> & _).
  destruct s as [job node], ev as [now ok|]; simpl in *.
  - destruct (timer_handle job); [|by exists sent].
    unfold process_next, do_broadcast, node_broadcast.
    destruct ok; simpl; [|by exists sent].
    eexists (sent ++ [_]).
    assert (Hlen : Z.of_nat (length (sent ++ [{| tr_time := now;
                     tr_payload := job_payload job;
                     tr_priority := or_default (job_priority job)
                                      default_transfer_priority |}]))
                   = num_broadcasted job + 1)
      by (rewrite length_app; simpl; lia).
    destruct (_ || _); simpl; rewrite Hsent, <- app_assoc;
      (split; [reflexivity|]); (split; [exact Hlen|]);
      (apply Forall_app; split; [done|]); by apply Forall_singleton.
  - by exists sent.
Qed.

Lemma job_run_fields pol evs s :
  job_payload (job_run pol s evs).1 = job_payload s.1
  ∧ job_priority (job_run pol s evs).1 = job_priority s.1
  ∧ job_count (job_run pol s evs).1 = job_count s.1.
Proof.
  revert s. induction evs as [|ev evs IH]; intros s; [done|].
  simpl. destruct (IH (job_step pol s ev)) as (-> & -> & ->).
  apply job_step_fields.
Qed.

(** Over the whole life of a job, whatever ticks, failures and removals
    occur: the transfers sent since the call of [broadcast] come after those
    the node had sent before, their number is [num_broadcasted], and each
    carries the payload given to the call (a type object replaced by its
    default value) with the priority [priority or 30]. *)
Theorem job_counts_its_transfers
    (pol : RemovePolicy) (node node' : Node) (now0 i : Z) (payload : Payload)
    (priority count duration : option Z) (job : BroadcastJob) (evs : list JobEvent) :
  broadcast node now0 true payload priority (Some i) count duration
    = (Ok (Some job), node') →
  ∃ sent,
    broadcasts (job_run pol (job, node') evs).2 = broadcasts node ++ sent
    ∧ Z.of_nat (length sent) = num_broadcasted (job_run pol (job, node') evs).1
    ∧ Forall (λ t, tr_payload t = job_payload job
                   ∧ tr_priority t = or_default priority default_transfer_priority)
        sent.
Proof.
  intros Hcall.
  assert (Hprio : job_priority job = priority ∧ ∃ t,
            broadcasts node' = broadcasts node ++ [t]
            ∧ tr_payload t = job_payload job
            ∧ tr_priority t = or_default priority default_transfer_priority
            ∧ num_broadcasted job = 1).
  { revert Hcall.
    unfold broadcast, throw_if_anonymous, do_broadcast, node_broadcast. simpl.
    destruct (is_anonymous node); [discriminate|].
    intros [= <- <-]. simpl. split; [done|]. by eexists. }
  destruct Hprio as (Hp & t & Hsent & Hpay & Hpr & Hone).
  assert (Hinv : ∀ evs s,
    (∃ sent, broadcasts s.2 = broadcasts node ++ sent
       ∧ Z.of_nat (length sent) = num_broadcasted s.1
       ∧ Forall (λ t, tr_payload t = job_payload s.1
                      ∧ tr_priority t
                        = or_default (job_priority s.1) default_transfer_priority) sent) →
    ∃ sent, broadcasts (job_run pol s evs).2 = broadcasts node ++ sent
      ∧ Z.of_nat (length sent) = num_broadcasted (job_run pol s evs).1
      ∧ Forall (λ t, tr_payload t = job_payload (job_run pol s evs).1
                     ∧ tr_priority t
                       = or_default (job_priority (job_run pol s evs).1)
                           default_transfer_priority) sent).
  { clear. intros evs. induction evs as [|ev evs IH]; intros s H; [done|].
    simpl. apply IH. by apply job_books_step. }
  destruct (Hinv evs (job, node')) as (sent & H1 & H2 & H3).
  { exists [t]. simpl. rewrite Hone, Hp. repeat split; [done|].
    by apply Forall_singleton. }
  destruct (job_run_fields pol evs (job, node')) as (Hf1 & Hf2 & _).
  rewrite Hf1, Hf2 in H3. simpl in H3. rewrite Hp in H3.
  by exists sent.
Qed.

Lemma job_counts_its_transfers_witness :
  ∃ sent,
    broadcasts
      (job_run RaiseWhenAbsent
         ({| job_payload := key_value; job_priority := Some 0;
             job_count := None; deadline := 0 + 10000;
             num_broadcasted := 1; timer_handle := true |},
          {| is_anonymous := false;
             broadcasts := [{| tr_time := 0; tr_payload := key_value;
                               tr_priority := 30 |}] |})
         [Tick 100 true; Tick 200 false; Tick 300 true]).2
      = broadcasts fresh_node ++ sent
    ∧ length sent = 2%nat.
Proof.
  destruct (job_counts_its_transfers RaiseWhenAbsent fresh_node _ 0 100 key_value
              (Some 0) None (Some 10000) _
              [Tick 100 true; Tick 200 false; Tick 300 true] eq_refl)
    as (sent & Hsent & Hnum & _).
  exists sent. split; [exact Hsent|].
  apply Nat2Z.inj. rewrite Hnum. reflexivity.
Defined.

(** A send that raises inside the periodic callback, and likewise a
    [remove()] on the handle, ends the job for good: the periodic
    registration is gone and no later event makes the node send. *)
Theorem failure_or_remove_is_final
    (pol : RemovePolicy) (s : BroadcastJob * Node) (now : Z) (evs : list JobEvent) :
  (timer_handle (job_run pol s (Tick now false :: evs)).1 = false
   ∧ (job_run pol s (Tick now false :: evs)).2 = s.2)
  ∧ (timer_handle (job_run pol s (Cancel :: evs)).1 = false
     ∧ (job_run pol s (Cancel :: evs)).2 = s.2).
Proof.
  destruct s as [job node]. split.
  - destruct (job_run_stopped pol evs (job_step pol (job, node) (Tick now false)))
      as [H1 H2].
    { simpl. destruct (timer_handle job) eqn:Hon; [reflexivity | exact Hon]. }
    split; [exact H1|]. simpl in *. rewrite H2.
    by destruct (timer_handle job).
  - destruct (job_run_stopped pol evs (job_step pol (job, node) Cancel))
      as [H1 H2].
    { simpl. by destruct (timer_handle job), pol. }
    split; [exact H1 | exact H2].
Qed.

Lemma uncounted_job_run pol ticks job node :
  timer_handle job = true →
  job_count job = None →
  Forall (λ t, t < deadline job) ticks →
  timer_handle (job_run pol (job, node) (map (λ t, Tick t true) ticks)).1 = true
  ∧ length (broadcasts (job_run pol (job, node) (map (λ t, Tick t true) ticks)).2)
    = (length (broadcasts node) + length ticks)%nat.
Proof.
  revert job node. induction ticks as [|t ticks IH]; intros job node Hon Hc Hall.
  - simpl. split; [done | lia].
  - apply Forall_cons in Hall as [Ht Hall]. simpl. rewrite Hon.
    unfold process_next, do_broadcast, node_broadcast. simpl. rewrite Hc. simpl.
    rewrite (bool_decide_eq_false_2 (deadline job ≤ t)) by lia.
    match goal with |- context [job_run pol (?j, ?nd) _] =>
      destruct (IH j nd) as (H1 & H2)
    end; simpl; try done.
    rewrite H1, H2. simpl. rewrite length_app. simpl. split; [done | lia].
Qed.

(** A broadcaster with an interval but neither count nor duration goes on
    for as long as its sends succeed and the clock stays below the default
    deadline of a thousand years: after any number of such ticks it is
    still registered and has sent one transfer per tick besides the
    immediate one. *)
Theorem unbounded_job_keeps_sending
    (pol : RemovePolicy) (node node' : Node) (now0 i : Z) (payload : Payload)
    (priority : option Z) (job : BroadcastJob) (ticks : list Z) :
  broadcast node now0 true payload priority (Some i) None None
    = (Ok (Some job), node') →
  Forall (λ t, t < now0 + thousand_years) ticks →
  timer_handle (job_run pol (job, node') (map (λ t, Tick t true) ticks)).1 = true
  ∧ length (broadcasts (job_run pol (job, node') (map (λ t, Tick t true) ticks)).2)
    = (length (broadcasts node) + 1 + length ticks)%nat.
Proof.
  intros Hcall Hticks.
  apply broadcast_periodic_inv in Hcall as (Hdl & Hc & _ & Hon & t & Hsent & _).
  simpl in Hdl.
  destruct (uncounted_job_run pol ticks job node') as [H1 H2];
    rewrite ?Hdl; try done.
  rewrite H1, H2, Hsent, length_app. simpl. split; [done | lia].
Qed.

Lemma unbounded_job_keeps_sending_witness :
  Forall (λ t, t < 0 + thousand_years) [100; 200; 300]
  ∧ timer_handle
      (job_run RaiseWhenAbsent
         ({| job_payload := key_value; job_priority := None;
             job_count := None; deadline := 0 + thousand_years;
             num_broadcasted := 1; timer_handle := true |},
          {| is_anonymous := false;
             broadcasts := [{| tr_time := 0; tr_payload := key_value;
                               tr_priority := 30 |}] |})
         (map (λ t, Tick t true) [100; 200; 300])).1 = true.
Proof.
  assert (H : Forall (λ t, t < 0 + thousand_years) [100; 200; 300])
    by (repeat constructor).
  split; [exact H|].
  exact (proj1 (unbounded_job_keeps_sending RaiseWhenAbsent fresh_node _ 0 100
                  key_value None _ [100; 200; 300] eq_refl H)).
Defined.

(** With a count [n] of any sign and no duration, successful sends and
    enough ticks before the default deadline, the number of transfers sent
    in all is [max n 2]: the count is first looked at after the second
    send, so a count below 2 (also 0 or a negative one) gives two transfers. *)
Theorem counted_job_total_sends
    (pol : RemovePolicy) (node node' : Node) (now0 i n : Z) (payload : Payload)
    (priority : option Z) (job : BroadcastJob) (ticks : list Z) :
  broadcast node now0 true payload priority (Some i) (Some n) None
    = (Ok (Some job), node') →
  Forall (λ t, t < now0 + thousand_years) ticks →
  (Z.to_nat (Z.max n 2 - 1) ≤ length ticks)%nat →
  length (broadcasts (job_run pol (job, node') (map (λ t, Tick t true) ticks)).2)
    = (length (broadcasts node) + Z.to_nat (Z.max n 2))%nat
  ∧ timer_handle (job_run pol (job, node') (map (λ t, Tick t true) ticks)).1 = false.
Proof.
  intros Hcall Hticks Hlen.
  apply broadcast_periodic_inv in Hcall as (Hdl & Hc & Hnum & Hon & t & Hsent & _).
  simpl in Hdl.
  destruct (decide (n < 2)) as [Hsmall|Hbig].
  - rewrite Z.max_r in * by lia.
    destruct ticks as [|t1 ticks]; [simpl in Hlen; lia|].
    simpl. rewrite Hon. unfold process_next, do_broadcast, node_broadcast. simpl.
    rewrite Hc, Hnum. simpl.
    rewrite (bool_decide_eq_true_2 (n ≤ 1 + 1)) by lia. simpl.
    match goal with |- context [job_run pol ?s ?evs] =>
      destruct (job_run_stopped pol evs s eq_refl) as [Hoff Hnode]
    end.
    rewrite Hnode, Hoff. simpl. rewrite length_app, Hsent, length_app. simpl.
    split; [lia | done].
  - rewrite Z.max_l in * by lia.
    destruct (counted_job_run pol n ticks job node') as [H1 H2];
      rewrite ?Hnum, ?Hdl; try done; try lia.
    rewrite H1, H2, Hsent, length_app, Hnum. simpl. split; [lia | done].
Qed.

Lemma counted_job_total_sends_witness :
  Forall (λ t, t < 0 + thousand_years) [100; 200; 300]
  ∧ (Z.to_nat (Z.max 0 2 - 1) ≤ length [100; 200; 300])%nat
  ∧ length (broadcasts
      (job_run RaiseWhenAbsent
         ({| job_payload := key_value; job_priority := None;
             job_count := Some 0; deadline := 0 + thousand_years;
             num_broadcasted := 1; timer_handle := true |},
          {| is_anonymous := false;
             broadcasts := [{| tr_time := 0; tr_payload := key_value;
                               tr_priority := 30 |}] |})
         (map (λ t, Tick t true) [100; 200; 300])).2)
    = (length (broadcasts fresh_node) + Z.to_nat (Z.max 0 2))%nat.
Proof.
  assert (H : Forall (λ t, t < 0 + thousand_years) [100; 200; 300])
    by (repeat constructor).
  assert (H' : (Z.to_nat (Z.max 0 2 - 1) ≤ length [100; 200; 300])%nat)
    by (simpl; lia).
  split; [exact H|]. split; [exact H'|].
  exact (proj1 (counted_job_total_sends RaiseWhenAbsent fresh_node _ 0 100 0
                  key_value None _ [100; 200; 300] eq_refl H H')).
Defined.

End BroadcastMore.

(** ** Subscriptions, continued *)

Module SubscribeMore.
Import Transport.
Import Console.
Import Subscribe.
Import SubscribeSpec.

Lemma removed_step pol s ev :
  sub_handle s = false →
  sub_handle (sub_step pol s ev) = false
  ∧ callback_calls (sub_step pol s ev) = callback_calls s
  ∧ callback_returns (sub_step pol s ev) = callback_returns s
  ∧ count (sub_step pol s ev) = count s
  ∧ on_end (sub_step pol s ev) = on_end s
  ∧ (is_pending (timer_handle (sub_step pol s ev)) = true →
     is_pending (timer_handle s) = true)
  ∧ (pol = RaiseWhenAbsent ∨ is_pending (timer_handle s) = false →
     on_end_calls (sub_step pol s ev) = on_end_calls s).
Proof.
  destruct s as [cb c oe sh th calls rets oec]. simpl. intros ->.
  destruct ev as [ok| |], pol, th; crush_sub.
  repeat split; try done. by intros [?|?].
Qed.

Lemma removed_run pol evs s :
  sub_handle s = false →
  sub_handle (sub_run pol s evs) = false
  ∧ callback_calls (sub_run pol s evs) = callback_calls s
  ∧ callback_returns (sub_run pol s evs) = callback_returns s
  ∧ count (sub_run pol s evs) = count s
  ∧ (pol = RaiseWhenAbsent ∨ is_pending (timer_handle s) = false →
     on_end_calls (sub_run pol s evs) = on_end_calls s).
Proof.
  revert s. induction evs as [|ev evs IH]; intros s Hoff; [done|].
  destruct (removed_step pol s ev Hoff) as (H1 & H2 & H3 & H4 & _ & H5 & H6).
  destruct (IH _ H1) as (I1 & I2 & I3 & I4 & I5). simpl.
  rewrite I2, I3, I4, H2, H3, H4. repeat split; [done|].
  intros Hcase. rewrite I5, H6; [done | done |].
  destruct Hcase as [?|Hnp]; [by left|right].
  destruct (is_pending (timer_handle (sub_step pol s ev))) eqn:Hp; [|done].
  rewrite (H5 eq_refl) in Hnp. discriminate.
Qed.






Lemma uncounted_delivery pol s :
  sub_handle s = true → count s = None →
  sub_handle (sub_step pol s (Deliver true)) = true
  ∧ count (sub_step pol s (Deliver true)) = None
  ∧ callback_calls (sub_step pol s (Deliver true)) = S (callback_calls s)
  ∧ on_end_calls (sub_step pol s (Deliver true)) = on_end_calls s
  ∧ timer_handle (sub_step pol s (Deliver true)) = timer_handle s.
Proof. destruct s; simpl; intros -> ->; crush_sub. Qed.

(** A subscription without a count is not ended by deliveries whose
    callback returns: after any number of them it is still ACTIVE, the
    callback has been entered once per message and [on_end] has not been
    invoked. *)
Theorem uncounted_subscription_stays_active
    (pol : RemovePolicy) (now : Z) (cb : option Callback) (d : option Z)
    (oe : bool) (s0 : Subscription) (k : nat) :
  subscribe now cb None d oe = Ok s0 →
  status (sub_run pol s0 (replicate k (Deliver true))) = ACTIVE
  ∧ callback_calls (sub_run pol s0 (replicate k (Deliver true))) = k
  ∧ on_end_calls (sub_run pol s0 (replicate k (Deliver true))) = 0%nat
  ∧ timer_handle (sub_run pol s0 (replicate k (Deliver true))) = timer_handle s0.
Proof.
  intros Hsub.
  apply subscribe_inv in Hsub as (Hh & Hc & _ & _ & Hcalls & _ & Hzero).
  assert (Hgen : ∀ k s, sub_handle s = true → count s = None →
    sub_handle (sub_run pol s (replicate k (Deliver true))) = true
    ∧ callback_calls (sub_run pol s (replicate k (Deliver true)))
      = (callback_calls s + k)%nat
    ∧ on_end_calls (sub_run pol s (replicate k (Deliver true))) = on_end_calls s
    ∧ timer_handle (sub_run pol s (replicate k (Deliver true))) = timer_handle s).
  { clear. intros k. induction k as [|k IH]; intros s Hreg Hc.
    - simpl. repeat split; [done | lia].
    - change (sub_run pol s (replicate (S k) (Deliver true)))
        with (sub_run pol (sub_step pol s (Deliver true)) (replicate k (Deliver true))).
      destruct (uncounted_delivery pol s Hreg Hc) as (U1 & U2 & U3 & U4 & U5).
      destruct (IH (sub_step pol s (Deliver true)) U1 U2) as (I1 & I2 & I3 & I4).
      rewrite I1, I2, I3, I4, U3, U4, U5. repeat split; try done; lia. }
  destruct (Hgen k s0 Hh Hc) as (G1 & G2 & G3 & G4).
  unfold status. rewrite G1, G2, G3, G4, Hcalls, Hzero. done.
Qed.

Lemma uncounted_subscription_stays_active_witness :
  subscribe 0 None None (Some 1000) true
    = Ok {| callback := print_yaml; count := None; on_end := true;
            sub_handle := true; timer_handle := Pending 1000;
            callback_calls := 0; callback_returns := 0; on_end_calls := 0 |}
  ∧ status (sub_run RaiseWhenAbsent
              {| callback := print_yaml; count := None; on_end := true;
                 sub_handle := true; timer_handle := Pending 1000;
                 callback_calls := 0; callback_returns := 0; on_end_calls := 0 |}
              (replicate 4 (Deliver true))) = ACTIVE.
Proof.
  split; [reflexivity|].
  exact (proj1 (uncounted_subscription_stays_active RaiseWhenAbsent 0 None
                  (Some 1000) true _ 4 eq_refl)).
Defined.



Lemma silent_removed_run evs s :
  sub_handle s = false →
  is_pending (timer_handle s) = true →
  on_end s = true →
  (Expire ∈ evs →
     on_end_calls (sub_run SilentWhenAbsent s evs) = S (on_end_calls s))
  ∧ (Expire ∉ evs →
     on_end_calls (sub_run SilentWhenAbsent s evs) = on_end_calls s).
Proof.
  revert s. induction evs as [|ev evs IH]; intros s Hoff Hpend Hoe.
  - split; [by intros ?%elem_of_nil | done].
  - change (sub_run SilentWhenAbsent s (ev :: evs))
      with (sub_run SilentWhenAbsent (sub_step SilentWhenAbsent s ev) evs).
    assert (Hdec : ev = Expire ∨ ev ≠ Expire)
      by (destruct ev; first [by left | by right]).
    destruct Hdec as [->|Hne].
    + assert (Hstep : sub_handle (sub_step SilentWhenAbsent s Expire) = false
                ∧ is_pending (timer_handle (sub_step SilentWhenAbsent s Expire)) = false
                ∧ on_end_calls (sub_step SilentWhenAbsent s Expire) = S (on_end_calls s)).
      { destruct s as [? ? ? ? th ? ? ?]; simpl in *; subst. by destruct th. }
      destruct Hstep as (S1 & S2 & S3).
      destruct (removed_run SilentWhenAbsent evs _ S1) as (_ & _ & _ & _ & Hsame).
      rewrite Hsame, S3 by (by right).
      split; [done|]. intros Hnot. exfalso. apply Hnot. by left.
    + assert (Hstep : sub_handle (sub_step SilentWhenAbsent s ev) = false
                ∧ timer_handle (sub_step SilentWhenAbsent s ev) = timer_handle s
                ∧ on_end (sub_step SilentWhenAbsent s ev) = true
                ∧ on_end_calls (sub_step SilentWhenAbsent s ev) = on_end_calls s).
      { destruct s; simpl in *; subst. by destruct ev. }
      destruct Hstep as (S1 & S2 & S3 & S4).
      destruct (IH _ S1) as [I1 I2]; [by rewrite S2 | done |].
      rewrite S4 in I1, I2. split.
      * intros [?|Hin]%elem_of_cons; [congruence | by apply I1].
      * intros Hnot. apply I2. intros Hin. apply Hnot. by right.
Qed.

(** [on_end] after a manual [remove()] on an ACTIVE subscription.  With a
    transport whose removal of an absent registration raises, [on_end] is
    never invoked, whatever happens later.  With one whose removal is silent
    and with [on_end] set, it is invoked exactly if the deferred event was
    still scheduled at the removal and fires later. *)
Theorem on_end_after_manual_remove
    (now : Z) (cb : option Callback) (c d : option Z) (oe : bool)
    (s0 : Subscription) (evs1 evs2 : list SubEvent) :
  subscribe now cb c d oe = Ok s0 →
  (status (sub_run RaiseWhenAbsent s0 evs1) = ACTIVE →
   on_end_calls (sub_run RaiseWhenAbsent s0 (evs1 ++ Remove :: evs2)) = 0%nat)
  ∧ (status (sub_run SilentWhenAbsent s0 evs1) = ACTIVE →
     oe = true →
     is_pending (timer_handle (sub_run SilentWhenAbsent s0 evs1)) = true →
     (Expire ∈ evs2 →
        on_end_calls (sub_run SilentWhenAbsent s0 (evs1 ++ Remove :: evs2)) = 1%nat)
     ∧ (Expire ∉ evs2 →
        on_end_calls (sub_run SilentWhenAbsent s0 (evs1 ++ Remove :: evs2)) = 0%nat)).
Proof.
  intros Hsub.
  apply subscribe_inv in Hsub as (Hh & _ & Hoe & _ & _ & _ & Hzero).
  assert (Hsplit : ∀ pol, sub_run pol s0 (evs1 ++ Remove :: evs2)
            = sub_run pol (sub_step pol (sub_run pol s0 evs1) Remove) evs2).
  { intros pol. unfold sub_run. by rewrite foldl_app. }
  assert (Hrem : ∀ pol, sub_handle (sub_run pol s0 evs1) = true →
            sub_handle (sub_step pol (sub_run pol s0 evs1) Remove) = false
            ∧ timer_handle (sub_step pol (sub_run pol s0 evs1) Remove)
              = timer_handle (sub_run pol s0 evs1)
            ∧ on_end (sub_step pol (sub_run pol s0 evs1) Remove) = oe
            ∧ on_end_calls (sub_step pol (sub_run pol s0 evs1) Remove) = 0%nat).
  { intros pol Hreg.
    destruct (on_end_pending_run pol evs1 s0) as (H0 & _ & _); [intros; lia..|].
    specialize (H0 Hreg). pose proof (on_end_run pol evs1 s0) as Hoe'.
    rewrite Hoe in Hoe'.
    destruct (sub_run pol s0 evs1); simpl in *; subst. by destruct pol. }
  split.
  - unfold status.
    destruct (sub_handle (sub_run RaiseWhenAbsent s0 evs1)) eqn:Hreg; [|discriminate].
    intros _. destruct (Hrem _ Hreg) as (R1 & _ & _ & R4).
    destruct (removed_run RaiseWhenAbsent evs2 _ R1) as (_ & _ & _ & _ & Hsame).
    rewrite Hsplit, Hsame, R4 by (by left). done.
  - unfold status.
    destruct (sub_handle (sub_run SilentWhenAbsent s0 evs1)) eqn:Hreg; [|discriminate].
    intros _ -> Hpend. destruct (Hrem _ Hreg) as (R1 & R2 & R3 & R4).
    destruct (silent_removed_run evs2 _ R1) as [I1 I2]; [by rewrite R2 | done |].
    rewrite Hsplit, R4 in *. done.
Qed.

Lemma on_end_after_manual_remove_witness :
  subscribe 0 None None (Some 1000) true
    = Ok {| callback := print_yaml; count := None; on_end := true;
            sub_handle := true; timer_handle := Pending 1000;
            callback_calls := 0; callback_returns := 0; on_end_calls := 0 |}
  ∧ status (sub_run RaiseWhenAbsent
              {| callback := print_yaml; count := None; on_end := true;
                 sub_handle := true; timer_handle := Pending 1000;
                 callback_calls := 0; callback_returns := 0; on_end_calls := 0 |}
              [Deliver true]) = ACTIVE
  ∧ on_end_calls
      (sub_run RaiseWhenAbsent
         {| callback := print_yaml; count := None; on_end := true;
            sub_handle := true; timer_handle := Pending 1000;
            callback_calls := 0; callback_returns := 0; on_end_calls := 0 |}
         ([Deliver true] ++ Remove :: [Expire; Deliver true])) = 0%nat.
Proof.
  split; [reflexivity|]. split; [reflexivity|].
  exact (proj1 (on_end_after_manual_remove 0 None None (Some 1000) true _
                  [Deliver true] [Expire; Deliver true] eq_refl) eq_refl).
Defined.

End SubscribeMore.

(** ** The jig monitor, continued *)

Module JigMore.
Import Jig.
Import JigSpec.

Lemma keys_step j ev :
  (∀ nid e, _modules j !! nid = Some e → message_id e = nid) →
  ∀ nid e, _modules (jig_step j ev) !! nid = Some e → message_id e = nid.
Proof.
  intros Hkeys nid e. destruct ev as [now event|now]; simpl.
  - intros [Hin _]%sweep_lookup.
    destruct (decide (message_id event = nid)) as [<-|Hne].
    + rewrite lookup_insert_eq in Hin. by injection Hin as <-.
    + rewrite lookup_insert_ne in Hin by done. by apply Hkeys.
  - destruct (_timer j); [|by apply Hkeys].
    case_bool_decide; [|by apply Hkeys]. simpl.
    intros [Hin _]%sweep_lookup. by apply Hkeys.
Qed.

Lemma keys_run evs j :
  (∀ nid e, _modules j !! nid = Some e → message_id e = nid) →
  ∀ nid e, _modules (jig_run j evs) !! nid = Some e → message_id e = nid.
Proof.
  revert j. induction evs as [|ev evs IH]; intros j Hkeys; [done|].
  simpl. apply IH. by apply keys_step.
Qed.

(** The monitor keeps one record per device id: in every state reached
    from the empty monitor each record is filed under its own message id,
    so [find_all] never yields two different records for one id. *)
Theorem one_record_per_id
    (evs : list JigEvent) (predicate : TransferEvent → bool) (e1 e2 : TransferEvent) :
  e1 ∈ find_all predicate (jig_run new_monitor evs) →
  e2 ∈ find_all predicate (jig_run new_monitor evs) →
  message_id e1 = message_id e2 →
  e1 = e2 ∧ _modules (jig_run new_monitor evs) !! message_id e1 = Some e1.
Proof.
  intros [_ [n1 H1]]%find_all_spec [_ [n2 H2]]%find_all_spec Hid.
  assert (Hkeys : ∀ nid e, _modules (jig_run new_monitor evs) !! nid = Some e →
                           message_id e = nid).
  { apply keys_run. intros nid e. simpl. by rewrite lookup_empty. }
  pose proof (Hkeys _ _ H1) as K1. pose proof (Hkeys _ _ H2) as K2.
  subst n1 n2. rewrite <- Hid in H2. split; [congruence | done].
Qed.

Lemma one_record_per_id_witness :
  let e := {| message_id := 7; message_body := [1]; ts_monotonic := 0 |} in
  e ∈ find_all (λ _, true) (jig_run new_monitor [Status 0 e])
  ∧ (e = e ∧ _modules (jig_run new_monitor [Status 0 e]) !! message_id e = Some e).
Proof.
  intros e.
  assert (H : e ∈ find_all (λ _, true) (jig_run new_monitor [Status 0 e])).
  { apply find_all_spec. split; [done|]. exists 7. simpl.
    apply sweep_lookup. split; [apply lookup_insert_eq|].
    unfold stale, seconds, TIMEOUT. simpl. lia. }
  split; [exact H|].
  exact (one_record_per_id [Status 0 e] (λ _, true) e e H H eq_refl).
Defined.

(** Sweeps only remove, and a later sweep subsumes an earlier one: sweeping
    at [now1] and then at [now2 ≥ now1] leaves the same records as sweeping
    at [now2] alone; in particular a repeated sweep at the same time changes
    nothing. *)
Theorem later_sweep_subsumes (now1 now2 : Z) (j : JigMonitor) :
  now1 ≤ now2 →
  check_for_stale now2 (check_for_stale now1 j) = check_for_stale now2 j
  ∧ check_for_stale now1 (check_for_stale now2 j) = check_for_stale now2 j
  ∧ _modules (check_for_stale now2 j) ⊆ _modules (check_for_stale now1 j)
  ∧ _modules (check_for_stale now1 j) ⊆ _modules j.
Proof.
  intros Hle. unfold check_for_stale. simpl.
  assert (H12 : sweep now2 (sweep now1 (_modules j)) = sweep now2 (_modules j)).
  { apply map_eq. intros nid. apply option_eq. intros e.
    rewrite !sweep_lookup. unfold stale. split; [tauto|].
    intros [? ?]. repeat split; [done | lia | done]. }
  assert (H21 : sweep now1 (sweep now2 (_modules j)) = sweep now2 (_modules j)).
  { apply map_eq. intros nid. apply option_eq. intros e.
    rewrite !sweep_lookup. unfold stale. split; [tauto|].
    intros [? ?]. repeat split; [done | done | lia]. }
  rewrite H12, H21. repeat split.
  - apply map_subseteq_spec. intros nid e. rewrite !sweep_lookup. unfold stale.
    intros [? ?]. split; [done | lia].
  - apply map_subseteq_spec. intros nid e. rewrite sweep_lookup. tauto.
Qed.

Lemma later_sweep_subsumes_witness :
  1000 ≤ 3000
  ∧ check_for_stale 3000 (check_for_stale 1000
      {| _modules := {[ 1 := {| message_id := 1; message_body := [];
                                ts_monotonic := 0 |} ]};
         _timer := None |})
    = check_for_stale 3000
      {| _modules := {[ 1 := {| message_id := 1; message_body := [];
                                ts_monotonic := 0 |} ]};
         _timer := None |}.
Proof.
  assert (H : 1000 ≤ 3000) by lia.
  split; [exact H|].
  exact (proj1 (later_sweep_subsumes 1000 3000 _ H)).
Defined.



End JigMore.

(** ** The jig table *)

Module JigTableSpec.
Import Jig.
Import JigTable.

(** Every entry of [known_nodes] is filed under its own message id. *)
Lemma known_nodes_key monitor nid e :
  known_nodes monitor !! nid = Some e → message_id e = nid.
Proof.
  unfold known_nodes. generalize (find_all (λ _, true) monitor). intros l.
  assert (H : ∀ (l : list TransferEvent) (acc : gmap Z TransferEvent),
    (∀ n e, acc !! n = Some e → message_id e = n) →
    ∀ n e, foldl (λ acc e, <[message_id e := e]> acc) acc l !! n = Some e →
           message_id e = n).
  { clear. induction l as [|x l IH]; intros acc Hacc n e; simpl; [by apply Hacc|].
    apply IH. intros n' e'.
    destruct (decide (message_id x = n')) as [<-|Hne].
    - rewrite lookup_insert_eq. by intros [= <-].
    - rewrite lookup_insert_ne by done. by apply Hacc. }
  apply H. intros n' e'. by rewrite lookup_empty.
Qed.

Lemma id_to_color_facts random nid t :
  rows (id_to_color random nid t).2 = rows t
  ∧ progress (id_to_color random nid t).2 = progress t
  ∧ row_color (id_to_color random nid t).2 !! nid = Some (id_to_color random nid t).1
  ∧ (∀ k c, row_color t !! k = Some c →
            row_color (id_to_color random nid t).2 !! k = Some c).
Proof.
  unfold id_to_color. destruct (row_color t !! nid) as [c|] eqn:Hc; simpl.
  - done.
  - repeat split; [apply lookup_insert_eq|].
    intros k c' Hk. rewrite lookup_insert_ne; [done|]. congruence.
Qed.

Lemma unknown_rows_snoc known first rs r :
  unknown_rows known first (rs ++ [r])
  = unknown_rows known first rs
    ++ (if row_known known r then [] else [(first + length rs)%nat]).
Proof.
  revert first. induction rs as [|x rs IH]; intros first; simpl.
  - rewrite Nat.add_0_r. by destruct (row_known known r).
  - rewrite IH, <- Nat.add_succ_comm. by destruct (row_known known x).
Qed.

Lemma shows_mono known (rc rc' : gmap Z Color) r :
  (∀ k c, rc !! k = Some c → rc' !! k = Some c) →
  shows known rc r → shows known rc' r.
Proof. intros Hmono (e & ? & ? & ?). exists e. auto. Qed.

Section scan.
Variable random : nat → Color.
Variable known : gmap Z TransferEvent.
Hypothesis known_key : ∀ nid e, known !! nid = Some e → message_id e = nid.
Variable t0 : JigNodeTable.

Local Abbreviation scan_upto k := (JigTable.scan_upto random known t0 k).

Lemma scan_invariant k :
  (k ≤ length (rows t0))%nat →
  slot_id <$> rows (table (scan_upto k)) = slot_id <$> rows t0
  ∧ drop k (rows (table (scan_upto k))) = drop k (rows t0)
  ∧ Forall (λ r, row_known known r = true →
                 shows known (row_color (table (scan_upto k))) r)
      (take k (rows (table (scan_upto k))))
  ∧ rows_to_remove (scan_upto k) = unknown_rows known 0 (take k (rows t0))
  ∧ displayed_nodes (scan_upto k) = list_to_set (slot_id <$> take k (rows t0))
  ∧ (∀ key c, row_color t0 !! key = Some c →
              row_color (table (scan_upto k)) !! key = Some c)
  ∧ (∀ nid, progress (table (scan_upto k)) !! nid
            = if bool_decide (nid ∈ slot_id <$> take k (rows t0))
                 && negb (bool_decide (is_Some (known !! nid)))
              then None else progress t0 !! nid).
Proof.
  induction k as [|k IH]; intros Hk.
  - unfold JigTable.scan_upto. simpl. rewrite !take_0. repeat split; done.
  - destruct IH as (I1 & I2 & I3 & I4 & I5 & I6 & I7); [lia|].
    destruct (lookup_lt_is_Some_2 (rows t0) k) as [r Hr]; [lia|].
    assert (Hr' : rows (table (scan_upto k)) !! k = Some r).
    { pose proof (f_equal (λ l, l !! 0%nat) I2) as H0. simpl in H0.
      rewrite !lookup_drop, Nat.add_0_r in H0. by rewrite H0. }
    assert (Hstep : scan_upto (S k) = update_existing random known (scan_upto k) k).
    { unfold JigTable.scan_upto. by rewrite seq_S, foldl_snoc. }
    rewrite Hstep. unfold update_existing. rewrite Hr'.
    rewrite (take_S_r _ _ _ Hr), fmap_app, list_to_set_app_L.
    destruct (known !! slot_id r) as [e|] eqn:Hknown.
    + pose proof (known_key _ _ Hknown) as Hid.
      destruct (id_to_color_facts random (message_id e) (table (scan_upto k)))
        as (C1 & C2 & C3 & C4).
      destruct (id_to_color random (message_id e) (table (scan_upto k)))
        as [c t] eqn:Hcol. simpl in *.
      assert (Hslot : slot_id (new_Row_value e c) = slot_id r).
      { unfold slot_id at 1. simpl. exact Hid. }
      repeat split.
      * rewrite C1, list_fmap_insert, Hslot, list_insert_id; [done|].
        by rewrite list_lookup_fmap, Hr'.
      * rewrite C1, drop_insert_lt by lia.
        replace (S k) with (k + 1)%nat by lia.
        by rewrite <- !drop_drop, I2.
      * rewrite C1.
        rewrite (take_S_r _ _ (new_Row_value e c));
          [|apply list_lookup_insert_eq; by apply lookup_lt_Some in Hr'].
        rewrite take_insert_ge by lia.
        apply Forall_app. split.
        -- eapply Forall_impl; [exact I3|]. intros r0 H0 Hk0.
           eapply shows_mono; [exact C4 | by apply H0].
        -- apply Forall_singleton. intros _. exists e.
           rewrite Hslot. repeat split; [done|]. by rewrite <- Hid.
      * rewrite unknown_rows_snoc. unfold row_known. rewrite Hknown.
        by rewrite app_nil_r.
      * by rewrite I5, (right_id_L ∅ (∪)), (comm_L (∪)).
      * intros key c0 H0. apply C4. by apply I6.
      * intros nid. rewrite C2, I7.
        destruct (decide (nid = slot_id r)) as [->|Hne].
        -- rewrite Hknown. rewrite (bool_decide_eq_true_2 (is_Some (Some e))) by done.
           simpl. by rewrite !andb_false_r.
        -- assert (Heq : bool_decide (nid ∈ (slot_id <$> take k (rows t0))
                                          ++ [slot_id r])
                         = bool_decide (nid ∈ slot_id <$> take k (rows t0))).
           { apply bool_decide_ext. rewrite elem_of_app, list_elem_of_singleton.
             tauto. }
           by rewrite Heq.
    + simpl. repeat split; try done.
      * replace (S k) with (k + 1)%nat by lia.
        by rewrite <- !drop_drop, I2.
      * rewrite (take_S_r _ _ _ Hr'). apply Forall_app. split; [done|].
        apply Forall_singleton. unfold row_known. by rewrite Hknown.
      * rewrite unknown_rows_snoc, I4. unfold row_known. rewrite Hknown.
        rewrite length_take_le by lia. done.
      * by rewrite I5, (right_id_L ∅ (∪)), (comm_L (∪)).
      * intros nid. destruct (decide (nid = slot_id r)) as [->|Hne].
        -- rewrite lookup_delete_eq, Hknown.
           rewrite (bool_decide_eq_true_2 (slot_id r ∈ _ ++ _));
             [|apply elem_of_app; right; by apply list_elem_of_singleton].
           by rewrite (bool_decide_eq_false_2 (is_Some None)) by (by intros [? ?]).
        -- rewrite lookup_delete_ne by done. rewrite I7.
           assert (Heq : bool_decide (nid ∈ (slot_id <$> take k (rows t0))
                                          ++ [slot_id r])
                         = bool_decide (nid ∈ slot_id <$> take k (rows t0))).
           { apply bool_decide_ext. rewrite elem_of_app, list_elem_of_singleton.
             tauto. }
           by rewrite Heq.
Qed.

End scan.

(** Removing the marked rows from the last to the first leaves the rows
    whose id is known, in their order. *)
Lemma remove_marked known pre rs :
  foldl (λ l i, delete i l) (pre ++ rs)
    (reverse (unknown_rows known (length pre) rs))
  = pre ++ filter (λ r, row_known known r = true) rs.
Proof.
  revert pre. induction rs as [|r rs IH]; intros pre; [done|].
  rewrite filter_cons. cbn [unknown_rows].
  specialize (IH (pre ++ [r])). rewrite length_app, <- app_assoc in IH.
  cbn [length app] in IH. rewrite Nat.add_1_r in IH.
  destruct (row_known known r) eqn:Hr.
  - rewrite decide_True by done. rewrite IH. by rewrite <- app_assoc.
  - rewrite decide_False by done. rewrite reverse_cons, foldl_app, IH.
    cbn [foldl]. rewrite <- app_assoc. apply delete_middle.
Qed.

Lemma removeRow_fold t idxs :
  foldl (λ t row, removeRow row t) t idxs
  = with_rows (foldl (λ l i, delete i l) (rows t) idxs) t.
Proof.
  revert t. induction idxs as [|i idxs IH]; intros t; simpl; [by destruct t|].
  by rewrite IH.
Qed.

Lemma unknown_rows_ext known first (rs1 rs2 : list Row_value) :
  slot_id <$> rs1 = slot_id <$> rs2 →
  unknown_rows known first rs1 = unknown_rows known first rs2.
Proof.
  revert first rs2. induction rs1 as [|r1 rs1 IH]; intros first [|r2 rs2]; simpl;
    try done.
  intros [= Hid Hrest]. unfold row_known. rewrite Hid, (IH _ _ Hrest). done.
Qed.

Lemma known_ids_filter known (rs : list Row_value) :
  slot_id <$> filter (λ r, row_known known r = true) rs
  = filter (λ nid, is_Some (known !! nid)) (slot_id <$> rs).
Proof.
  induction rs as [|r rs IH]; [done|].
  rewrite fmap_cons, !filter_cons.
  assert (Hspec : row_known known r = true ↔ is_Some (known !! slot_id r)).
  { unfold row_known. destruct (known !! slot_id r); split; try done.
    all: by intros [? ?]. }
  destruct (decide (row_known known r = true)) as [Hk|Hk];
    destruct (decide (is_Some (known !! slot_id r))) as [Hs|Hs];
    try tauto.
  by rewrite fmap_cons, IH.
Qed.

(** The table after the first two loops of [_update]. *)
Lemma after_removal random known t0 :
  (∀ nid e, known !! nid = Some e → message_id e = nid) →
  let sc := scan_rows random known t0 in
  let t1 := foldl (λ t row, removeRow row t) (table sc) (reverse (rows_to_remove sc)) in
  slot_id <$> rows t1 = filter (λ nid, is_Some (known !! nid)) (slot_id <$> rows t0)
  ∧ Forall (shows known (row_color t1)) (rows t1)
  ∧ displayed_nodes sc = list_to_set (slot_id <$> rows t0)
  ∧ (∀ key c, row_color t0 !! key = Some c → row_color t1 !! key = Some c)
  ∧ (∀ nid, progress t1 !! nid
            = if bool_decide (nid ∈ slot_id <$> rows t0)
                 && negb (bool_decide (is_Some (known !! nid)))
              then None else progress t0 !! nid).
Proof.
  intros Hkey sc t1.
  destruct (scan_invariant random known Hkey t0 (length (rows t0)))
    as (I1 & I2 & I3 & I4 & I5 & I6 & I7); [done|].
  change (scan_upto random known t0 (length (rows t0))) with sc in *.
  rewrite firstn_all in I4, I5, I7.
  assert (Hlen : length (rows (table sc)) = length (rows t0)).
  { by rewrite <- (length_fmap slot_id), I1, length_fmap. }
  rewrite <- Hlen, firstn_all in I3.
  assert (Hrows : rows t1 = filter (λ r, row_known known r = true) (rows (table sc))).
  { unfold t1. rewrite removeRow_fold. simpl. rewrite I4.
    rewrite (unknown_rows_ext known 0 (rows t0) (rows (table sc))) by done.
    apply (remove_marked known []). }
  assert (Hrc : row_color t1 = row_color (table sc)).
  { unfold t1. by rewrite removeRow_fold. }
  assert (Hpr : progress t1 = progress (table sc)).
  { unfold t1. by rewrite removeRow_fold. }
  rewrite Hrows, Hrc, Hpr. repeat split; try done.
  - by rewrite known_ids_filter, I1.
  - apply Forall_forall. intros r [Hr Hin]%list_elem_of_filter.
    rewrite Forall_forall in I3. by apply I3.
Qed.

Lemma add_new_known random known t nid e :
  known !! nid = Some e → message_id e = nid →
  ∃ c,
    rows (add_new random known t nid)
    = take (find_insertion_pos_for_node_id nid (rows t)) (rows t)
      ++ new_Row_value e c
         :: drop (find_insertion_pos_for_node_id nid (rows t)) (rows t)
    ∧ row_color (add_new random known t nid) !! nid = Some c
    ∧ (∀ k c', row_color t !! k = Some c' →
               row_color (add_new random known t nid) !! k = Some c')
    ∧ progress (add_new random known t nid) = <[nid := 0]> (progress t).
Proof.
  intros Hknown Hid. unfold add_new. rewrite Hknown, Hid.
  destruct (id_to_color_facts random nid (with_progress (<[nid:=0]> (progress t)) t))
    as (C1 & C2 & C3 & C4).
  destruct (id_to_color random nid (with_progress (<[nid:=0]> (progress t)) t))
    as [c t'] eqn:Hcol. simpl in *.
  exists c. by rewrite C1, C2.
Qed.

Lemma add_new_unknown random known t nid :
  known !! nid = None → add_new random known t nid = t.
Proof. intros H. unfold add_new. by rewrite H. Qed.

(** Inserting a row at the position [find_insertion_pos_for_node_id] gives
    for its id keeps a table that is sorted by id sorted. *)
Lemma insert_keeps_sorted (x : Z) (rx : Row_value) (rs : list Row_value) :
  slot_id rx = x →
  StronglySorted Z.lt (slot_id <$> rs) →
  x ∉ slot_id <$> rs →
  StronglySorted Z.lt
    (slot_id <$> (take (find_insertion_pos_for_node_id x rs) rs
                  ++ rx :: drop (find_insertion_pos_for_node_id x rs) rs)).
Proof.
  intros Hx. induction rs as [|r rs IH]; intros Hsorted Hnotin.
  - simpl. rewrite Hx. repeat constructor.
  - rewrite fmap_cons in Hsorted, Hnotin.
    apply StronglySorted_inv in Hsorted as [Hrest Hall].
    apply not_elem_of_cons in Hnotin as [Hne Hnotin].
    simpl. case_bool_decide as Hlt; simpl.
    + rewrite Hx. constructor.
      * constructor; [done|exact Hall].
      * constructor; [done|]. eapply Forall_impl; [exact Hall|].
        intros y Hy. simpl in Hy. lia.
    + constructor; [by apply IH|].
      rewrite fmap_app, fmap_cons, Hx, fmap_take, fmap_drop.
      apply Forall_app. split; [by apply Forall_take|].
      constructor; [lia | by apply Forall_drop].
Qed.

Lemma insert_ids (x : Z) (rx : Row_value) (rs : list Row_value) (p : nat) (nid : Z) :
  slot_id rx = x →
  nid ∈ slot_id <$> (take p rs ++ rx :: drop p rs) ↔ nid = x ∨ nid ∈ slot_id <$> rs.
Proof.
  intros Hx. rewrite <- (take_drop p rs) at 3.
  rewrite !fmap_app, fmap_cons, !elem_of_app, elem_of_cons, Hx. tauto.
Qed.

(** The last loop of [_update], for any order of the ids it adds. *)
Lemma add_all random known order :
  (∀ nid e, known !! nid = Some e → message_id e = nid) →
  ∀ t,
  (∀ nid, nid ∈ slot_id <$> rows (foldl (add_new random known) t order)
          ↔ nid ∈ slot_id <$> rows t ∨ (nid ∈ order ∧ is_Some (known !! nid)))
  ∧ (Forall (shows known (row_color t)) (rows t) →
     Forall (shows known (row_color (foldl (add_new random known) t order)))
       (rows (foldl (add_new random known) t order)))
  ∧ (∀ k c, row_color t !! k = Some c →
            row_color (foldl (add_new random known) t order) !! k = Some c)
  ∧ (StronglySorted Z.lt (slot_id <$> rows t) →
     NoDup order → (∀ nid, nid ∈ order → nid ∉ slot_id <$> rows t) →
     StronglySorted Z.lt (slot_id <$> rows (foldl (add_new random known) t order)))
  ∧ (∀ nid, progress (foldl (add_new random known) t order) !! nid
            = if bool_decide (nid ∈ order ∧ is_Some (known !! nid))
              then Some 0 else progress t !! nid).
Proof.
  intros Hkey. induction order as [|x order IH]; intros t.
  - simpl. repeat split; try done.
    + intros ?. by left.
    + intros [?|[?%elem_of_nil ?]]; done.
  - simpl. destruct (IH (add_new random known t x)) as (I1 & I2 & I3 & I4 & I5).
    destruct (known !! x) as [e|] eqn:Hx.
    + pose proof (Hkey _ _ Hx) as Hid.
      destruct (add_new_known random known t x e Hx Hid) as (c & A1 & A2 & A3 & A4).
      assert (Hslot : slot_id (new_Row_value e c) = x) by exact Hid.
      refine (conj _ (conj _ (conj _ (conj _ _)))).
      * intros nid. rewrite I1, A1, (insert_ids x) by done.
        rewrite elem_of_cons. split.
        -- intros [[->|?]|[? ?]]; [right; split; [by left | by eexists] | by left |
                                    right; split; [by right | done]].
        -- intros [?|[[->|?] ?]]; [left; by right | left; by left | right; done].
      * intros Hshows. apply I2. rewrite A1.
        assert (Hold : Forall (shows known (row_color (add_new random known t x)))
                         (rows t)).
        { eapply Forall_impl; [exact Hshows|]. intros r Hr.
          by eapply shows_mono. }
        apply Forall_app. split; [by apply Forall_take|].
        constructor; [|by apply Forall_drop].
        exists e. rewrite Hslot. repeat split; done.
      * intros k c0 H0. apply I3. by apply A3.
      * intros Hsorted [Hnx Hnd]%NoDup_cons Hfresh.
        apply I4; [|done|].
        -- rewrite A1. apply insert_keeps_sorted; [done | done |].
           apply Hfresh. by left.
        -- intros nid Hin. rewrite A1, (insert_ids x) by done.
           intros [->|?]; [done|]. eapply Hfresh; [by right | done].
      * intros nid. rewrite I5, A4.
        destruct (decide (nid = x)) as [->|Hne].
        -- rewrite lookup_insert_eq.
           rewrite (bool_decide_eq_true_2 (x ∈ x :: order ∧ _));
             [|split; [by left | by eexists]].
           by destruct (bool_decide _).
        -- rewrite lookup_insert_ne by done.
           apply (f_equal (λ b : bool, if b then Some 0 else progress t !! nid)).
           apply bool_decide_ext. rewrite elem_of_cons. tauto.
    + rewrite (add_new_unknown _ _ _ _ Hx) in *.
      refine (conj _ (conj _ (conj _ (conj _ _)))).
      * intros nid. rewrite I1, elem_of_cons. split.
        -- intros [?|[? ?]]; [by left | right; split; [by right | done]].
        -- intros [?|[[->|?] Hs]]; [by left | | right; done].
           rewrite Hx in Hs. by destruct Hs.
      * exact I2.
      * exact I3.
      * intros Hsorted [Hnx Hnd]%NoDup_cons Hfresh.
        apply I4; [done | done |]. intros nid Hin. apply Hfresh. by right.
      * intros nid. rewrite I5.
        apply (f_equal (λ b : bool, if b then Some 0 else progress t !! nid)).
        apply bool_decide_ext. rewrite elem_of_cons. split; [tauto|].
        intros [[->|?] Hs]; [|done]. rewrite Hx in Hs. by destruct Hs.
Qed.

Lemma StronglySorted_filter_lt (P : Z → Prop) `{!∀ x, Decision (P x)} (l : list Z) :
  StronglySorted Z.lt l → StronglySorted Z.lt (filter P l).
Proof.
  induction 1 as [|x l Hs IH Hall]; [constructor|].
  rewrite filter_cons. destruct (decide (P x)); [|done].
  constructor; [done|]. apply Forall_forall. intros y [_ Hy]%list_elem_of_filter.
  rewrite Forall_forall in Hall. by apply Hall.
Qed.

(** What [order] ranges over, in terms of the table before the update. *)
Lemma order_spec random monitor t order nid :
  order ≡ₚ elements (new_nodes random monitor t) →
  nid ∈ order
  ↔ is_Some (known_nodes monitor !! nid) ∧ nid ∉ slot_id <$> rows t.
Proof.
  intros Hperm. rewrite Hperm, elem_of_elements. unfold new_nodes.
  destruct (after_removal random (known_nodes monitor) t (known_nodes_key monitor))
    as (_ & _ & -> & _).
  rewrite elem_of_difference, elem_of_dom, elem_of_list_to_set. done.
Qed.

Lemma update_colour_mono random order monitor t nid c :
  row_color t !! nid = Some c →
  row_color (_update random order monitor t) !! nid = Some c.
Proof.
  intros Hc. unfold _update. cbv zeta.
  pose proof (known_nodes_key monitor) as Hkey.
  destruct (after_removal random (known_nodes monitor) t Hkey)
    as (R1 & R2 & R3 & R4 & R5).
  cbv zeta in R1, R2, R4, R5.
  match goal with |- context [foldl (add_new _ _) ?t1 order] =>
    destruct (add_all random (known_nodes monitor) order Hkey t1)
      as (A1 & A2 & A3 & A4 & A5)
  end.
  apply A3. by apply R4.
Qed.

(** After [_update] the table shows exactly the nodes the monitor knows:
    there is a row for an id if and only if the monitor has a record for it,
    and every row shows that record, with the id of its first column equal
    to the record's id, in the colour registered for the id in [row_color].
    This holds for any table before the update and any order in which the
    new ids are added. *)
Theorem update_shows_monitor
    (random : nat → Color) (order : list Z) (monitor : JigMonitor) (t : JigNodeTable) :
  order ≡ₚ elements (new_nodes random monitor t) →
  (∀ nid, nid ∈ slot_id <$> rows (_update random order monitor t)
          ↔ is_Some (known_nodes monitor !! nid))
  ∧ Forall (shows (known_nodes monitor) (row_color (_update random order monitor t)))
      (rows (_update random order monitor t)).
Proof.
  intros Hperm. unfold _update. cbv zeta.
  pose proof (known_nodes_key monitor) as Hkey.
  destruct (after_removal random (known_nodes monitor) t Hkey)
    as (R1 & R2 & R3 & R4 & R5).
  cbv zeta in R1, R2, R4, R5.
  match goal with |- context [foldl (add_new _ _) ?t1 order] =>
    destruct (add_all random (known_nodes monitor) order Hkey t1)
      as (A1 & A2 & A3 & A4 & A5)
  end.
  split.
  - intros nid. rewrite A1, R1, list_elem_of_filter.
    rewrite (order_spec random monitor t order nid Hperm).
    destruct (decide (nid ∈ slot_id <$> rows t)); tauto.
  - by apply A2.
Qed.

(** [_update] keeps the rows in ascending order of their ids: if no id was
    shown twice and the rows were sorted before, they are sorted after,
    whatever rows were removed and in whatever order the new ones were
    added. *)
Theorem update_keeps_rows_sorted
    (random : nat → Color) (order : list Z) (monitor : JigMonitor) (t : JigNodeTable) :
  order ≡ₚ elements (new_nodes random monitor t) →
  StronglySorted Z.lt (slot_id <$> rows t) →
  StronglySorted Z.lt (slot_id <$> rows (_update random order monitor t)).
Proof.
  intros Hperm Hsorted. unfold _update. cbv zeta.
  pose proof (known_nodes_key monitor) as Hkey.
  destruct (after_removal random (known_nodes monitor) t Hkey)
    as (R1 & R2 & R3 & R4 & R5).
  cbv zeta in R1, R2, R4, R5.
  match goal with |- context [foldl (add_new _ _) ?t1 order] =>
    destruct (add_all random (known_nodes monitor) order Hkey t1)
      as (A1 & A2 & A3 & A4 & A5)
  end.
  apply A4.
  - rewrite R1. by apply StronglySorted_filter_lt.
  - rewrite Hperm. apply NoDup_elements.
  - intros nid Hin. rewrite R1, list_elem_of_filter.
    apply (order_spec random monitor t order nid Hperm) in Hin. tauto.
Qed.

(** A colour once registered for an id is never changed by [_update], and
    the rows shown for that id after the update have that colour. *)
Theorem update_keeps_colours
    (random : nat → Color) (order : list Z) (monitor : JigMonitor) (t : JigNodeTable)
    (nid : Z) (c : Color) :
  order ≡ₚ elements (new_nodes random monitor t) →
  row_color t !! nid = Some c →
  row_color (_update random order monitor t) !! nid = Some c
  ∧ Forall (λ r, slot_id r = nid → color r = c)
      (rows (_update random order monitor t)).
Proof.
  intros Hperm Hc.
  pose proof (update_colour_mono random order monitor t nid c Hc) as Hfinal.
  split; [exact Hfinal|].
  pose proof (known_nodes_key monitor) as Hkey.
  assert (Hshows : Forall (shows (known_nodes monitor)
                             (row_color (_update random order monitor t)))
                     (rows (_update random order monitor t))).
  { unfold _update. cbv zeta.
    destruct (after_removal random (known_nodes monitor) t Hkey)
      as (R1 & R2 & R3 & R4 & R5).
    cbv zeta in R1, R2, R4, R5.
    match goal with |- context [foldl (add_new _ _) ?t1 order] =>
      destruct (add_all random (known_nodes monitor) order Hkey t1)
        as (A1 & A2 & A3 & A4 & A5)
    end.
    by apply A2. }
  eapply Forall_impl; [exact Hshows|].
  intros r (e & _ & _ & Hrc) <-. rewrite Hfinal in Hrc. congruence.
Qed.

(** [_update] and the [progress] dictionary: a node that gets a new row
    starts with progress 0, a node whose row is removed loses its entry, and
    every other entry is left as it was. *)
Theorem update_progress
    (random : nat → Color) (order : list Z) (monitor : JigMonitor) (t : JigNodeTable)
    (nid : Z) :
  order ≡ₚ elements (new_nodes random monitor t) →
  progress (_update random order monitor t) !! nid
  = if bool_decide (is_Some (known_nodes monitor !! nid))
    then (if bool_decide (nid ∈ slot_id <$> rows t) then progress t !! nid else Some 0)
    else (if bool_decide (nid ∈ slot_id <$> rows t) then None else progress t !! nid).
Proof.
  intros Hperm. unfold _update. cbv zeta.
  pose proof (known_nodes_key monitor) as Hkey.
  destruct (after_removal random (known_nodes monitor) t Hkey)
    as (R1 & R2 & R3 & R4 & R5).
  cbv zeta in R1, R2, R4, R5.
  match goal with |- context [foldl (add_new _ _) ?t1 order] =>
    destruct (add_all random (known_nodes monitor) order Hkey t1)
      as (A1 & A2 & A3 & A4 & A5)
  end.
  rewrite A5, R5.
  pose proof (order_spec random monitor t order nid Hperm) as Hord.
  repeat case_bool_decide; simpl; try done; tauto.
Qed.

Lemma update_shows_monitor_witness :
  [2] ≡ₚ elements (new_nodes sample_random sample_monitor sample_table)
  ∧ Forall (shows (known_nodes sample_monitor)
              (row_color (_update sample_random [2] sample_monitor sample_table)))
      (rows (_update sample_random [2] sample_monitor sample_table)).
Proof.
  assert (H : [2] ≡ₚ elements (new_nodes sample_random sample_monitor sample_table))
    by (vm_compute; reflexivity).
  split; [exact H|].
  exact (proj2 (update_shows_monitor sample_random [2] sample_monitor sample_table H)).
Defined.

Lemma update_keeps_rows_sorted_witness :
  [2] ≡ₚ elements (new_nodes sample_random sample_monitor sample_table)
  ∧ StronglySorted Z.lt (slot_id <$> rows sample_table)
  ∧ StronglySorted Z.lt
      (slot_id <$> rows (_update sample_random [2] sample_monitor sample_table)).
Proof.
  assert (H : [2] ≡ₚ elements (new_nodes sample_random sample_monitor sample_table))
    by (vm_compute; reflexivity).
  assert (H' : StronglySorted Z.lt (slot_id <$> rows sample_table)).
  { simpl. unfold slot_id. simpl. repeat constructor. }
  split; [exact H|]. split; [exact H'|].
  exact (update_keeps_rows_sorted sample_random [2] sample_monitor sample_table H H').
Defined.

Lemma update_keeps_colours_witness :
  [2] ≡ₚ elements (new_nodes sample_random sample_monitor sample_table)
  ∧ row_color sample_table !! 5 = Some 11
  ∧ row_color (_update sample_random [2] sample_monitor sample_table) !! 5 = Some 11.
Proof.
  assert (H : [2] ≡ₚ elements (new_nodes sample_random sample_monitor sample_table))
    by (vm_compute; reflexivity).
  assert (H' : row_color sample_table !! 5 = Some 11) by reflexivity.
  split; [exact H|]. split; [exact H'|].
  exact (proj1 (update_keeps_colours sample_random [2] sample_monitor sample_table
                  5 11 H H')).
Defined.

Lemma update_progress_witness :
  [2] ≡ₚ elements (new_nodes sample_random sample_monitor sample_table)
  ∧ progress (_update sample_random [2] sample_monitor sample_table) !! 9
    = if bool_decide (is_Some (known_nodes sample_monitor !! 9))
      then (if bool_decide (9 ∈ slot_id <$> rows sample_table)
            then progress sample_table !! 9 else Some 0)
      else (if bool_decide (9 ∈ slot_id <$> rows sample_table)
            then None else progress sample_table !! 9).
Proof.
  assert (H : [2] ≡ₚ elements (new_nodes sample_random sample_monitor sample_table))
    by (vm_compute; reflexivity).
  split; [exact H|].
  exact (update_progress sample_random [2] sample_monitor sample_table 9 H).
Defined.

End JigTableSpec.

(** ** Node property windows *)

Module NodeWindowsSpec.
Import NodeWindows.

Lemma window_invariant_step w ev :
  (∀ k nid, created w !! k = Some nid → k ∉ closed w → _node_windows w !! nid = Some k) →
  (∀ nid k, _node_windows w !! nid = Some k → created w !! k = Some nid) →
  (∀ k, k ∈ closed w → (k < length (created w))%nat) →
  (∀ k nid, created (window_step w ev) !! k = Some nid →
            k ∉ closed (window_step w ev) →
            _node_windows (window_step w ev) !! nid = Some k)
  ∧ (∀ nid k, _node_windows (window_step w ev) !! nid = Some k →
              created (window_step w ev) !! k = Some nid)
  ∧ (∀ k, k ∈ closed (window_step w ev) →
          (k < length (created (window_step w ev)))%nat).
Proof.
  intros I1 I2 I3. destruct ev as [node_id|k0]; simpl.
  - unfold _show_node_window.
    destruct (_node_windows w !! node_id) as [old|] eqn:Hold; simpl.
    + refine (conj _ (conj _ _)).
      * intros k nid Hk Hopen.
        apply not_elem_of_union in Hopen as [Hne%not_elem_of_singleton Hopen].
        apply lookup_app_Some in Hk as [Hk|[Hlen Hk]].
        -- pose proof (I1 _ _ Hk Hopen) as Hmap.
           destruct (decide (nid = node_id)) as [->|Hn]; [congruence|].
           by rewrite lookup_insert_ne, lookup_delete_ne.
        -- apply list_lookup_singleton_Some in Hk as [Hk0 <-].
           rewrite lookup_insert_eq. f_equal. lia.
      * intros nid k. destruct (decide (nid = node_id)) as [->|Hn].
        -- rewrite lookup_insert_eq. intros [= <-].
           by rewrite lookup_app_r, Nat.sub_diag.
        -- rewrite lookup_insert_ne, lookup_delete_ne by done. intros Hk.
           apply lookup_app_l_Some. by apply I2.
      * intros k [->%elem_of_singleton|Hk]%elem_of_union; rewrite length_app; simpl.
        -- apply I2, lookup_lt_Some in Hold. lia.
        -- apply I3 in Hk. lia.
    + refine (conj _ (conj _ _)).
      * intros k nid Hk Hopen.
        apply lookup_app_Some in Hk as [Hk|[Hlen Hk]].
        -- pose proof (I1 _ _ Hk Hopen) as Hmap.
           destruct (decide (nid = node_id)) as [->|Hn]; [congruence|].
           by rewrite lookup_insert_ne.
        -- apply list_lookup_singleton_Some in Hk as [Hk0 <-].
           rewrite lookup_insert_eq. f_equal. lia.
      * intros nid k. destruct (decide (nid = node_id)) as [->|Hn].
        -- rewrite lookup_insert_eq. intros [= <-].
           by rewrite lookup_app_r, Nat.sub_diag.
        -- rewrite lookup_insert_ne by done. intros Hk.
           apply lookup_app_l_Some. by apply I2.
      * intros k Hk. apply I3 in Hk. rewrite length_app. simpl. lia.
  - case_bool_decide as Hk0; simpl; [|done].
    refine (conj _ (conj _ _)); [|done|].
    + intros k nid Hk Hopen. apply I1; [done|]. set_solver.
    + intros k [->%elem_of_singleton|Hk]%elem_of_union; [done | by apply I3].
Qed.

Lemma window_invariant_run evs w :
  (∀ k nid, created w !! k = Some nid → k ∉ closed w → _node_windows w !! nid = Some k) →
  (∀ nid k, _node_windows w !! nid = Some k → created w !! k = Some nid) →
  (∀ k, k ∈ closed w → (k < length (created w))%nat) →
  (∀ k nid, created (window_run w evs) !! k = Some nid →
            k ∉ closed (window_run w evs) →
            _node_windows (window_run w evs) !! nid = Some k)
  ∧ (∀ nid k, _node_windows (window_run w evs) !! nid = Some k →
              created (window_run w evs) !! k = Some nid)
  ∧ (∀ k, k ∈ closed (window_run w evs) →
          (k < length (created (window_run w evs)))%nat).
Proof.
  revert w. induction evs as [|ev evs IH]; intros w I1 I2 I3; [done|].
  simpl. destruct (window_invariant_step w ev I1 I2 I3) as (? & ? & ?).
  by apply IH.
Qed.

(** For each node there is at most one open properties window, and it is
    the one the dictionary holds: whatever windows were requested and closed
    since the start, two windows made for the same node that are both open
    are the same window. *)
Theorem one_open_window_per_node
    (evs : list WindowEvent) (nid : Z) (k1 k2 : nat) :
  created (window_run no_windows evs) !! k1 = Some nid →
  created (window_run no_windows evs) !! k2 = Some nid →
  k1 ∉ closed (window_run no_windows evs) →
  k2 ∉ closed (window_run no_windows evs) →
  k1 = k2 ∧ _node_windows (window_run no_windows evs) !! nid = Some k1.
Proof.
  intros H1 H2 O1 O2.
  destruct (window_invariant_run evs no_windows) as (I1 & _ & _); [done..|].
  pose proof (I1 _ _ H1 O1) as M1. pose proof (I1 _ _ H2 O2) as M2.
  split; [congruence | done].
Qed.

(** A request for the window of a node always ends with a new, open window
    for that node in the dictionary; the window the dictionary held for the
    node before, if any, has been closed, and the windows of other nodes are
    untouched. *)
Theorem request_opens_fresh_window
    (evs : list WindowEvent) (node_id : Z) :
  let w := window_run no_windows evs in
  let w' := _show_node_window node_id w in
  _node_windows w' !! node_id = Some (length (created w))
  ∧ created w' !! length (created w) = Some node_id
  ∧ (length (created w) ∉ closed w')
  ∧ (∀ old, _node_windows w !! node_id = Some old → old ∈ closed w')
  ∧ (∀ nid, nid ≠ node_id → _node_windows w' !! nid = _node_windows w !! nid).
Proof.
  cbv zeta. generalize (window_invariant_run evs no_windows).
  generalize (window_run no_windows evs). intros w Hinv.
  destruct Hinv as (I1 & I2 & I3); [done..|].
  unfold _show_node_window.
  destruct (_node_windows w !! node_id) as [old|] eqn:Hold; simpl.
  - refine (conj _ (conj _ (conj _ (conj _ _)))).
    + apply lookup_insert_eq.
    + by rewrite lookup_app_r, Nat.sub_diag.
    + intros [Heq%elem_of_singleton|Hin%I3]%elem_of_union; [|lia].
      apply I2, lookup_lt_Some in Hold. lia.
    + intros ? [= <-]. set_solver.
    + intros nid Hne. by rewrite lookup_insert_ne, lookup_delete_ne.
  - refine (conj _ (conj _ (conj _ (conj _ _)))).
    + apply lookup_insert_eq.
    + by rewrite lookup_app_r, Nat.sub_diag.
    + intros Hin%I3. lia.
    + by intros ? [=].
    + intros nid Hne. by rewrite lookup_insert_ne.
Qed.

Lemma one_open_window_per_node_witness :
  created (window_run no_windows [InfoRequested 5; InfoRequested 7; InfoRequested 5])
    !! 2%nat = Some 5
  ∧ (2%nat ∉ closed (window_run no_windows
                       [InfoRequested 5; InfoRequested 7; InfoRequested 5]))
  ∧ _node_windows (window_run no_windows
                     [InfoRequested 5; InfoRequested 7; InfoRequested 5]) !! 5
    = Some 2%nat.
Proof.
  assert (H : created (window_run no_windows
                         [InfoRequested 5; InfoRequested 7; InfoRequested 5])
                !! 2%nat = Some 5) by reflexivity.
  assert (O : 2%nat ∉ closed (window_run no_windows
                                [InfoRequested 5; InfoRequested 7; InfoRequested 5]))
    by (apply (bool_decide_unpack _); vm_compute; exact I).
  split; [exact H|]. split; [exact O|].
  exact (proj2 (one_open_window_per_node
                  [InfoRequested 5; InfoRequested 7; InfoRequested 5] 5 2 2 H H O O)).
Defined.

End NodeWindowsSpec.

(** ** The jig panel singleton *)

Module JigPanelSpec.
Import JigPanel.

Lemma panel_invariant_step w ev :
  is_Finalise ev = false →
  open w = status_handles w →
  open w = from_option (λ p, {[ p ]}) ∅ (_singleton w) →
  open (panel_step w ev) = status_handles (panel_step w ev)
  ∧ open (panel_step w ev)
    = from_option (λ p, {[ p ]}) ∅ (_singleton (panel_step w ev)).
Proof.
  intros Hev H1 H2. destruct ev as [|p|p]; [| |done]; simpl.
  - unfold spawn. destruct (_singleton w) as [q|] eqn:Hs; simpl in *.
    + by rewrite Hs.
    + rewrite <- H1, H2. by rewrite (right_id_L ∅ (∪)).
  - case_bool_decide as Hp; [|done]. simpl. rewrite <- H1. split; [done|].
    rewrite H2 in Hp |- *. destruct (_singleton w) as [q|]; simpl in *.
    + apply elem_of_singleton in Hp as ->. apply difference_diag_L.
    + by apply elem_of_empty in Hp.
Qed.

Lemma panel_invariant_run evs w :
  Forall (λ ev, is_Finalise ev = false) evs →
  open w = status_handles w →
  open w = from_option (λ p, {[ p ]}) ∅ (_singleton w) →
  open (panel_run w evs) = status_handles (panel_run w evs)
  ∧ open (panel_run w evs)
    = from_option (λ p, {[ p ]}) ∅ (_singleton (panel_run w evs)).
Proof.
  intros Hall. revert w. induction Hall as [|ev evs Hev _ IH]; intros w H1 H2; [done|].
  simpl. destruct (panel_invariant_step w ev Hev H1 H2) as [? ?]. by apply IH.
Qed.

(** As long as no finaliser of an old panel interferes, there is at most
    one jig panel: the open panels are exactly the singleton, exactly the
    open panel's monitor has a status handler registered, and [spawn]
    returns the open panel without constructing anything when there is
    one, and otherwise constructs one panel, which becomes the singleton. *)
Theorem at_most_one_jig_panel (evs : list PanelEvent) :
  Forall (λ ev, is_Finalise ev = false) evs →
  let w := panel_run no_panel evs in
  status_handles w = open w
  ∧ open w = from_option (λ p, {[ p ]}) ∅ (_singleton w)
  ∧ (size (open w) ≤ 1)%nat
  ∧ (∀ p, _singleton w = Some p → spawn w = (p, w))
  ∧ open (spawn w).2 = {[ (spawn w).1 ]}
  ∧ status_handles (spawn w).2 = {[ (spawn w).1 ]}
  ∧ _singleton (spawn w).2 = Some (spawn w).1.
Proof.
  intros Hall. cbv zeta.
  destruct (panel_invariant_run evs no_panel Hall) as [H1 H2]; [done..|].
  generalize dependent (panel_run no_panel evs). intros w H1 H2.
  refine (conj _ (conj _ (conj _ (conj _ (conj _ (conj _ _)))))).
  - done.
  - done.
  - rewrite H2. destruct (_singleton w); cbn [from_option].
    + by rewrite size_singleton.
    + rewrite size_empty. lia.
  - intros p Hp. unfold spawn. by rewrite Hp.
  - unfold spawn. destruct (_singleton w) as [q|] eqn:Hs; simpl in *; [done|].
    rewrite H2. apply (right_id_L ∅ (∪)).
  - unfold spawn. destruct (_singleton w) as [q|] eqn:Hs; simpl in *.
    + by rewrite <- H1.
    + rewrite <- H1, H2. apply (right_id_L ∅ (∪)).
  - unfold spawn. by destruct (_singleton w) as [q|] eqn:Hs.
Qed.

Lemma at_most_one_jig_panel_witness :
  Forall (λ ev, is_Finalise ev = false) [Spawn; Spawn; Close 0; Spawn]
  ∧ status_handles (panel_run no_panel [Spawn; Spawn; Close 0; Spawn])
    = open (panel_run no_panel [Spawn; Spawn; Close 0; Spawn]).
Proof.
  assert (H : Forall (λ ev, is_Finalise ev = false) [Spawn; Spawn; Close 0; Spawn])
    by (repeat constructor).
  split; [exact H|].
  exact (proj1 (at_most_one_jig_panel [Spawn; Spawn; Close 0; Spawn] H)).
Defined.

End JigPanelSpec.

(** ** Program start *)

Module LauncherSpec.
Import Launcher.

Lemma main_loop_failed_starts fails rounds errors made :
  Forall (λ r, failed_start r = true) fails →
  ∃ errors' made',
    main_loop (fails ++ rounds) errors made = main_loop rounds errors' made'
    ∧ length errors' = (length errors + length fails)%nat
    ∧ (made ≤ made' ≤ made + length fails)%nat.
Proof.
  intros Hall. revert errors made.
  induction Hall as [|[cfg init] fails Hr _ IH]; intros errors made.
  - exists errors, made. simpl. repeat split; lia.
  - simpl in Hr. destruct cfg as [|iface]; [done|].
    destruct init; [| |done]; apply negb_true_iff in Hr; simpl; rewrite Hr.
    + destruct (IH (errors ++ ["Could not initialize UAVCAN node"]) made)
        as (e' & m' & -> & Hlen & Hm).
      exists e', m'. rewrite length_app in Hlen. simpl in Hlen.
      repeat split; lia.
    + destruct (IH (errors ++ ["Could not initialize UAVCAN node"]) (S made))
        as (e' & m' & -> & Hlen & Hm).
      exists e', m'. rewrite length_app in Hlen. simpl in Hlen.
      repeat split; lia.
Qed.

(** However many rounds fail to start the node, each shows one error
    dialog and the loop goes on; the first round that is not such a failure
    decides how [main] ends.  Without an interface chosen the exit status is
    0 (the [exit(0)] is not caught by [except Exception]); when the
    interface dialog raises, it is 1 after one more error dialog; when the
    node starts, the window is shown, that node is closed once at the end
    and the exit status is the one of the application.  Nodes made in the
    failed rounds are never closed. *)
Theorem main_decided_by_first_other_round
    (fails rest : list (ConfigOutcome * InitOutcome))
    (cfg : ConfigOutcome) (init : InitOutcome) (exit_code : Z) :
  Forall (λ r, failed_start r = true) fails →
  failed_start (cfg, init) = false →
  main fails exit_code = None
  ∧ ∃ r, main (fails ++ (cfg, init) :: rest) exit_code = Some r
    ∧ match cfg with
      | ConfigRaises =>
        exit_status r = 1 ∧ window_shown r = false ∧ nodes_closed r = 0%nat
        ∧ length (errors_shown r) = S (length fails)
      | ConfigReturns iface =>
        if not_iface iface then
          exit_status r = 0 ∧ window_shown r = false ∧ nodes_closed r = 0%nat
          ∧ length (errors_shown r) = length fails
        else
          exit_status r = exit_code ∧ window_shown r = true ∧ nodes_closed r = 1%nat
          ∧ length (errors_shown r) = length fails
          ∧ (1 ≤ nodes_made r ≤ S (length fails))%nat
      end.
Proof.
  intros Hall Hround. split.
  - unfold main.
    destruct (main_loop_failed_starts fails [] [] 0 Hall) as (e' & m' & Heq & _).
    rewrite app_nil_r in Heq. by rewrite Heq.
  - unfold main.
    destruct (main_loop_failed_starts fails ((cfg, init) :: rest) [] 0 Hall)
      as (e' & m' & -> & Hlen & Hm).
    simpl in *. destruct cfg as [|iface].
    + eexists. split; [reflexivity|]. simpl. rewrite length_app. simpl.
      repeat split; lia.
    + destruct (not_iface iface) eqn:Hno.
      * eexists. split; [reflexivity|]. simpl. repeat split; lia.
      * destruct init; simpl in Hround; try discriminate.
        eexists. split; [reflexivity|]. simpl. repeat split; lia.
Qed.

Lemma main_decided_by_first_other_round_witness :
  Forall (λ r, failed_start r = true)
    [(ConfigReturns (Some "can0"), SpinRaises);
     (ConfigReturns (Some "can0"), MakeNodeRaises)]
  ∧ failed_start (ConfigReturns None, NodeReady) = false
  ∧ main [(ConfigReturns (Some "can0"), SpinRaises);
          (ConfigReturns (Some "can0"), MakeNodeRaises)] 3 = None.
Proof.
  assert (H : Forall (λ r, failed_start r = true)
                [(ConfigReturns (Some "can0"), SpinRaises);
                 (ConfigReturns (Some "can0"), MakeNodeRaises)])
    by (repeat constructor).
  assert (H' : failed_start (ConfigReturns None, NodeReady) = false) by reflexivity.
  split; [exact H|]. split; [exact H'|].
  exact (proj1 (main_decided_by_first_other_round _ [] (ConfigReturns None) NodeReady
                  3 H H')).
Defined.

End LauncherSpec.
